(** * Admission control and resilience layer of the FastAPI gateway examples

    Shallow embedding of
      - [13_api_gateway.py]  : [CircuitBreaker], [ServiceRegistry],
                               [APIGateway.proxy_request];
      - [13_rate_limiting.py]: [TokenBucketLimiter], [SlidingWindowLimiter],
                               [FixedWindowCounter].

    Conventions.
      - Python [int] is [Z]; Python [float] (clock readings, token amounts,
        refill rates) is an exact rational [Q]: rounding of binary floating
        point is not modelled.
      - Python [dict] with string keys is [gmap string _]; a Python [list] or
        [deque] is a [list].
      - Every reading of the clock ([time.time()], [datetime.utcnow()]) is an
        explicit argument of the function that performs it, in the order in
        which the source reads it.
      - A Python exception that escapes a function is a value of [Result]. *)

From Stdlib Require Import ZArith QArith Qminmax Qround Lqa Lia.
From stdpp Require Import gmap strings list.

Local Open Scope Z_scope.

(** ** Exceptions *)

Inductive Result (A : Type) : Type :=
| Ok (a : A)
| Raise (exn : string).
Arguments Ok {A} a.
Arguments Raise {A} exn.

(** ** Circuit breaker ([13_api_gateway.py], lines 54-113) *)

Inductive CircuitState : Type := CLOSED | OPEN | HALF_OPEN.

Definition CircuitState_eqb (a b : CircuitState) : bool :=
  match a, b with
  | CLOSED, CLOSED | OPEN, OPEN | HALF_OPEN, HALF_OPEN => true
  | _, _ => false
  end.

Record CircuitBreaker : Type := mkCircuitBreaker {
  failure_threshold : Z;
  timeout_seconds : Z;
  failure_count : Z;
  last_failure_time : option Q;
  state : CircuitState
}.

Module Breaker.

(** [CircuitBreaker.__init__] *)
Definition init (threshold timeout : Z) : CircuitBreaker :=
  {| failure_threshold := threshold;
     timeout_seconds := timeout;
     failure_count := 0;
     last_failure_time := None;
     state := CLOSED |}.

(** [record_success]: the count is cleared, and a half-open circuit closes. *)
Definition record_success (cb : CircuitBreaker) : CircuitBreaker :=
  let cb1 := {| failure_threshold := failure_threshold cb;
                timeout_seconds := timeout_seconds cb;
                failure_count := 0;
                last_failure_time := last_failure_time cb;
                state := state cb |} in
  if CircuitState_eqb (state cb1) HALF_OPEN
  then {| failure_threshold := failure_threshold cb1;
          timeout_seconds := timeout_seconds cb1;
          failure_count := failure_count cb1;
          last_failure_time := last_failure_time cb1;
          state := CLOSED |}
  else cb1.

(** [record_failure]; [now] is the reading of [datetime.utcnow()]. *)
Definition record_failure (now : Q) (cb : CircuitBreaker) : CircuitBreaker :=
  let count := failure_count cb + 1 in
  {| failure_threshold := failure_threshold cb;
     timeout_seconds := timeout_seconds cb;
     failure_count := count;
     last_failure_time := Some now;
     state := if failure_threshold cb <=? count then OPEN else state cb |}.

Definition set_state (s : CircuitState) (cb : CircuitBreaker) : CircuitBreaker :=
  {| failure_threshold := failure_threshold cb;
     timeout_seconds := timeout_seconds cb;
     failure_count := failure_count cb;
     last_failure_time := last_failure_time cb;
     state := s |}.

(** [can_attempt]; [now] is the reading of [datetime.utcnow()], which the
    source takes only in the [OPEN] branch.  A [datetime] object is always
    truthy, so [if self.last_failure_time] tests for [None]. *)
Definition can_attempt (now : Q) (cb : CircuitBreaker) : bool * CircuitBreaker :=
  match state cb with
  | CLOSED => (true, cb)
  | OPEN =>
      match last_failure_time cb with
      | Some last =>
          let elapsed := (now - last)%Q in
          if Qle_bool (inject_Z (timeout_seconds cb)) elapsed
          then (true, set_state HALF_OPEN cb)
          else (false, cb)
      | None => (false, cb)
      end
  | HALF_OPEN => (true, cb)
  end.

(** A run of consecutive [record_failure] calls, one per clock reading. *)
Definition record_failures (times : list Q) (cb : CircuitBreaker) : CircuitBreaker :=
  fold_left (fun b t => record_failure t b) times cb.

End Breaker.

(** ** Python primitives used by the registry and the limiters *)

(** [l[i]] for a Python list: negative indices count from the end, an index
    out of range raises [IndexError] (here [None]). *)
Definition py_index {A : Type} (l : list A) (i : Z) : option A :=
  let n := Z.of_nat (length l) in
  if (0 <=? i) && (i <? n) then l !! Z.to_nat i
  else if (- n <=? i) && (i <? 0) then l !! Z.to_nat (n + i)
  else None.

(** [x in l] for a list of strings. *)
Definition py_in (x : string) (l : list string) : bool :=
  existsb (String.eqb x) l.

(** [a < b] on clock readings. *)
Definition Qlt_bool (a b : Q) : bool := negb (Qle_bool b a).

(** [int(x)] on a float: truncation towards zero. *)
Definition py_int (x : Q) : Z := Z.quot (Qnum x) (Z.pos (Qden x)).

(** [round(x)] to the nearest integer, ties to even. *)
Definition round_half_even (x : Q) : Z :=
  let f := Qfloor x in
  match Qcompare (x - inject_Z f) (1 # 2) with
  | Lt => f
  | Gt => f + 1
  | Eq => if Z.even f then f else f + 1
  end.

(** [round(x, 2)] *)
Definition py_round2 (x : Q) : Q :=
  (inject_Z (round_half_even (x * 100)) / 100)%Q.

(** ** Service registry ([13_api_gateway.py], lines 38-174) *)

Module ServiceConfig.
Definition FAILURE_THRESHOLD : Z := 5.
Definition TIMEOUT_SECONDS : Z := 30.
End ServiceConfig.

Record ServiceRegistry : Type := mkServiceRegistry {
  services : gmap string (list string);
  current_index : gmap string Z;
  circuit_breakers : gmap string CircuitBreaker
}.

Module Registry.

(** [ServiceRegistry.__init__] *)
Definition init : ServiceRegistry :=
  {| services :=
       <["users" := ["http://localhost:8001"%string]]>
       (<["products" := ["http://localhost:8002"%string]]>
       (<["orders" := ["http://localhost:8003"%string]]> ∅));
     current_index := ∅;
     circuit_breakers := ∅ |}.

Definition set_services (s : gmap string (list string)) (r : ServiceRegistry)
  : ServiceRegistry :=
  {| services := s;
     current_index := current_index r;
     circuit_breakers := circuit_breakers r |}.

Definition set_current_index (ix : gmap string Z) (r : ServiceRegistry)
  : ServiceRegistry :=
  {| services := services r;
     current_index := ix;
     circuit_breakers := circuit_breakers r |}.

Definition set_circuit_breakers (cbs : gmap string CircuitBreaker)
  (r : ServiceRegistry) : ServiceRegistry :=
  {| services := services r;
     current_index := current_index r;
     circuit_breakers := cbs |}.

(** [register_service]: two successive tests, as in the source. *)
Definition register_service (name url : string) (r : ServiceRegistry)
  : ServiceRegistry :=
  let r1 :=
    match services r !! name with
    | None => set_services (<[name := []]> (services r)) r
    | Some _ => r
    end in
  match services r1 !! name with
  | Some urls =>
      if py_in url urls then r1
      else set_services (<[name := urls ++ [url]]> (services r1)) r1
  | None => r1
  end.

(** [get_service_url]: the first component is the returned value ([None] of
    Python is [Ok None]) or the [IndexError] of [urls[...]]. *)
Definition get_service_url (name : string) (r : ServiceRegistry)
  : Result (option string) * ServiceRegistry :=
  match services r !! name with
  | None => (Ok None, r)
  | Some [] => (Ok None, r)
  | Some urls =>
      let r1 :=
        match current_index r !! name with
        | None => set_current_index (<[name := 0]> (current_index r)) r
        | Some _ => r
        end in
      match current_index r1 !! name with
      | Some i =>
          match py_index urls i with
          | Some url =>
              let next := (i + 1) mod Z.of_nat (length urls) in
              (Ok (Some url),
               set_current_index (<[name := next]> (current_index r1)) r1)
          | None => (Raise "IndexError", r1)
          end
      | None => (Raise "KeyError", r1)
      end
  end.

(** [get_circuit_breaker]: the breaker of the service, created on demand. *)
Definition get_circuit_breaker (service_name : string) (r : ServiceRegistry)
  : CircuitBreaker * ServiceRegistry :=
  match circuit_breakers r !! service_name with
  | Some cb => (cb, r)
  | None =>
      let cb := Breaker.init ServiceConfig.FAILURE_THRESHOLD
                             ServiceConfig.TIMEOUT_SECONDS in
      (cb, set_circuit_breakers (<[service_name := cb]> (circuit_breakers r)) r)
  end.

(** [n] successive calls of [get_service_url]: the values returned, in order,
    and the final registry. *)
Fixpoint get_service_urls (n : nat) (name : string) (r : ServiceRegistry)
  : list (Result (option string)) * ServiceRegistry :=
  match n with
  | O => ([], r)
  | S k =>
      let '(v, r1) := get_service_url name r in
      let '(vs, r2) := get_service_urls k name r1 in
      (v :: vs, r2)
  end.

(** What [__init__], [register_service] and [get_service_url] maintain: the
    URL lists have no duplicates, and a stored round-robin index points into
    the list of its service. *)
Definition wf (r : ServiceRegistry) : Prop :=
  (forall name urls, services r !! name = Some urls -> NoDup urls) /\
  (forall name i, current_index r !! name = Some i ->
     exists urls, services r !! name = Some urls /\
                  0 <= i < Z.of_nat (length urls)).

End Registry.

(** ** API gateway ([13_api_gateway.py], lines 185-272) *)

(** Header dictionaries and JSON values are carried, never inspected. *)
Definition Headers : Type := list (string * string).
Definition Json : Type := string.

(** The keyword arguments of one call on the [httpx] client. *)
Record Request : Type := mkRequest {
  rq_method : string;
  rq_url : string;
  rq_headers : option Headers;
  rq_json : option Json
}.

(** The response object: [response_json] is what [response.json()] gives, a
    value or the decoding exception. *)
Record Response : Type := mkResponse {
  status_code : Z;
  response_text : string;
  response_json : Result Json;
  response_headers : Headers
}.

(** How a call on the client ends: a response with some status code, an
    exception of class [httpx.RequestError] (connection errors and timeouts;
    [httpx.TimeoutException] is one of its subclasses) carrying [str(e)], or
    an exception of any other class. *)
Inductive TransportOutcome : Type :=
| Responded (resp : Response)
| RequestError (text : string)
| OtherException (exn : string).

(** What the mocked transport and the breaker see, oldest first. *)
Inductive Event : Type :=
| EvNetCall (rq : Request)
| EvRecordSuccess (service_name : string)
| EvRecordFailure (service_name : string).

(** The process state the gateway works on: the registry, the module-level
    [http_client] (created or not), and the ghost trace of events. *)
Record Gateway : Type := mkGateway {
  registry : ServiceRegistry;
  http_client : bool;
  trace : list Event
}.

(** The clock readings of one [proxy_request], in source order. *)
Record Clock : Type := mkClock {
  t_attempt : Q;   (* utcnow() in can_attempt *)
  t_start : Q;     (* time.time() before the call *)
  t_end : Q;       (* time.time() after the call *)
  t_failure : Q    (* utcnow() in record_failure *)
}.

Record Payload : Type := mkPayload {
  p_status_code : Z;
  p_data : Json;
  p_headers : Headers;
  p_response_time_ms : Q
}.

Inductive ProxyOutcome : Type :=
| Returned (p : Payload)
| HTTPException (status : Z) (detail : string)
| Propagated (exn : string).

Module APIGateway.

(** The breaker object is shared with the registry's dictionary: a method
    called on it updates the entry of the service. *)
Definition update_breaker (service_name : string) (cb : CircuitBreaker)
  (r : ServiceRegistry) : ServiceRegistry :=
  Registry.set_circuit_breakers (<[service_name := cb]> (circuit_breakers r)) r.

(** The branch on [method]: the request sent, or [None] for the [ValueError]. *)
Definition build_request (method full_url : string) (headers : option Headers)
  (body : option Json) : option Request :=
  if String.eqb method "GET" then
    Some (mkRequest "GET" full_url headers None)
  else if String.eqb method "POST" then
    Some (mkRequest "POST" full_url headers body)
  else if String.eqb method "PUT" then
    Some (mkRequest "PUT" full_url headers body)
  else if String.eqb method "DELETE" then
    Some (mkRequest "DELETE" full_url headers None)
  else None.

Definition circuit_open_detail (service_name : string) : string :=
  "Service " +:+ service_name +:+ " is currently unavailable (circuit open)".

Definition not_found_detail (service_name : string) : string :=
  "Service " +:+ service_name +:+ " not found".

Definition unavailable_detail (service_name text : string) : string :=
  "Service " +:+ service_name +:+ " unavailable: " +:+ text.

(** [proxy_request]; [client] answers the outbound call. *)
Definition proxy_request (client : Request -> TransportOutcome) (clk : Clock)
  (service_name path method : string) (headers : option Headers)
  (body : option Json) (g : Gateway) : ProxyOutcome * Gateway :=
  let '(cb, r1) := Registry.get_circuit_breaker service_name (registry g) in
  let '(ok, cb1) := Breaker.can_attempt (t_attempt clk) cb in
  let r2 := update_breaker service_name cb1 r1 in
  if negb ok then
    (HTTPException 503 (circuit_open_detail service_name),
     mkGateway r2 (http_client g) (trace g))
  else
    let '(found, r3) := Registry.get_service_url service_name r2 in
    match found with
    | Raise exn => (Propagated exn, mkGateway r3 (http_client g) (trace g))
    | Ok None | Ok (Some "") =>
        (HTTPException 503 (not_found_detail service_name),
         mkGateway r3 (http_client g) (trace g))
    | Ok (Some service_url) =>
        let full_url := service_url +:+ path in
        match build_request method full_url headers body with
        | None =>
            (Propagated ("Unsupported method: " +:+ method),
             mkGateway r3 true (trace g))
        | Some rq =>
            let tr := trace g ++ [EvNetCall rq] in
            match client rq with
            | Responded resp =>
                let elapsed := (t_end clk - t_start clk)%Q in
                let r4 :=
                  update_breaker service_name (Breaker.record_success cb1) r3 in
                let g4 :=
                  mkGateway r4 true (tr ++ [EvRecordSuccess service_name]) in
                let data :=
                  if String.eqb (response_text resp) "" then Ok "{}"%string
                  else response_json resp in
                match data with
                | Ok d =>
                    (Returned
                       {| p_status_code := status_code resp;
                          p_data := d;
                          p_headers := response_headers resp;
                          p_response_time_ms := py_round2 (elapsed * 1000) |},
                     g4)
                | Raise exn => (Propagated exn, g4)
                end
            | RequestError text =>
                let r4 :=
                  update_breaker service_name
                    (Breaker.record_failure (t_failure clk) cb1) r3 in
                (HTTPException 503 (unavailable_detail service_name text),
                 mkGateway r4 true (tr ++ [EvRecordFailure service_name]))
            | OtherException exn =>
                (Propagated exn, mkGateway r3 true tr)
            end
        end
    end.

End APIGateway.

(** ** Token bucket ([13_rate_limiting.py], lines 31-89) *)

Record Bucket : Type := mkBucket {
  tokens : Q;
  last_update : Q
}.

Record TokenBucketLimiter : Type := mkTokenBucketLimiter {
  capacity : Z;
  refill_rate : Q;
  buckets : gmap string Bucket
}.

Module TokenBucket.

(** [TokenBucketLimiter.__init__] *)
Definition init (cap : Z) (rate : Q) : TokenBucketLimiter :=
  {| capacity := cap; refill_rate := rate; buckets := ∅ |}.

Definition set_buckets (bs : gmap string Bucket) (L : TokenBucketLimiter)
  : TokenBucketLimiter :=
  {| capacity := capacity L; refill_rate := refill_rate L; buckets := bs |}.

(** [_get_bucket]; [now] is read only when the bucket is created. *)
Definition _get_bucket (now : Q) (key : string) (L : TokenBucketLimiter)
  : Bucket * TokenBucketLimiter :=
  match buckets L !! key with
  | Some b => (b, L)
  | None =>
      let b := {| tokens := inject_Z (capacity L); last_update := now |} in
      (b, set_buckets (<[key := b]> (buckets L)) L)
  end.

(** [_refill_tokens] on the bucket object. *)
Definition _refill_tokens (cap : Z) (rate : Q) (now : Q) (b : Bucket) : Bucket :=
  let elapsed := (now - last_update b)%Q in
  let tokens_to_add := (elapsed * rate)%Q in
  {| tokens := Qmin (inject_Z cap) (tokens b + tokens_to_add);
     last_update := now |}.

(** [allow_request]; [t_create] is the reading of [_get_bucket] (used for a
    new key only), [t_refill] the one of [_refill_tokens].  The bucket is the
    object stored under [key], so its changes are written back there. *)
Definition allow_request (t_create t_refill : Q) (key : string)
  (tokens_needed : Z) (L : TokenBucketLimiter) : bool * TokenBucketLimiter :=
  let '(b, L1) := _get_bucket t_create key L in
  let b1 := _refill_tokens (capacity L1) (refill_rate L1) t_refill b in
  if Qle_bool (inject_Z tokens_needed) (tokens b1) then
    let b2 := {| tokens := (tokens b1 - inject_Z tokens_needed)%Q;
                 last_update := last_update b1 |} in
    (true, set_buckets (<[key := b2]> (buckets L1)) L1)
  else
    (false, set_buckets (<[key := b1]> (buckets L1)) L1).

(** One call of [allow_request] with its two clock readings. *)
Record Call : Type := mkCall {
  c_key : string;
  c_tokens_needed : Z;
  c_create : Q;
  c_refill : Q
}.

Definition step (L : TokenBucketLimiter) (c : Call) : TokenBucketLimiter :=
  snd (allow_request (c_create c) (c_refill c) (c_key c) (c_tokens_needed c) L).

Definition run (calls : list Call) (L : TokenBucketLimiter) : TokenBucketLimiter :=
  fold_left step calls L.

(** The clock readings of a sequence of calls never go back, starting from
    [t]; every call asks for a non-negative number of tokens. *)
Fixpoint admissible (t : Q) (calls : list Call) : Prop :=
  match calls with
  | [] => True
  | c :: rest =>
      0 <= c_tokens_needed c /\
      (t <= c_create c)%Q /\ (c_create c <= c_refill c)%Q /\
      admissible (c_refill c) rest
  end.

End TokenBucket.

(** ** Sliding window ([13_rate_limiting.py], lines 92-133) *)

Record SlidingWindowLimiter : Type := mkSlidingWindowLimiter {
  sw_max_requests : Z;
  sw_window_seconds : Z;
  requests : gmap string (list Q)
}.

Module SlidingWindow.

Definition init (max_requests window_seconds : Z) : SlidingWindowLimiter :=
  {| sw_max_requests := max_requests;
     sw_window_seconds := window_seconds;
     requests := ∅ |}.

Definition set_requests (rs : gmap string (list Q)) (L : SlidingWindowLimiter)
  : SlidingWindowLimiter :=
  {| sw_max_requests := sw_max_requests L;
     sw_window_seconds := sw_window_seconds L;
     requests := rs |}.

(** [self.requests[key]] on a [defaultdict(deque)]: a missing key is inserted
    with an empty deque. *)
Definition getitem (key : string) (L : SlidingWindowLimiter)
  : list Q * SlidingWindowLimiter :=
  match requests L !! key with
  | Some q => (q, L)
  | None => ([], set_requests (<[key := []]> (requests L)) L)
  end.

(** The [while] loop of [_cleanup_old_requests]: [popleft] as long as the
    front is older than the cutoff. *)
Fixpoint popleft_older (cutoff_time : Q) (q : list Q) : list Q :=
  match q with
  | [] => []
  | t :: rest =>
      if Qlt_bool t cutoff_time then popleft_older cutoff_time rest else q
  end.

Definition _cleanup_old_requests (now : Q) (key : string)
  (L : SlidingWindowLimiter) : SlidingWindowLimiter :=
  let cutoff_time := (now - inject_Z (sw_window_seconds L))%Q in
  let '(q, L1) := getitem key L in
  set_requests (<[key := popleft_older cutoff_time q]> (requests L1)) L1.

(** [allow_request]; [t_cleanup] is read by the cleanup, [t_append] by the
    [append]. *)
Definition allow_request (t_cleanup t_append : Q) (key : string)
  (L : SlidingWindowLimiter) : bool * SlidingWindowLimiter :=
  let L1 := _cleanup_old_requests t_cleanup key L in
  let '(q, L2) := getitem key L1 in
  if Z.of_nat (length q) <? sw_max_requests L2 then
    (true, set_requests (<[key := q ++ [t_append]]> (requests L2)) L2)
  else (false, L2).

Definition get_remaining_requests (now : Q) (key : string)
  (L : SlidingWindowLimiter) : Z * SlidingWindowLimiter :=
  let L1 := _cleanup_old_requests now key L in
  let '(q, L2) := getitem key L1 in
  (Z.max 0 (sw_max_requests L2 - Z.of_nat (length q)), L2).

(** [get_reset_time]: the stored deque is read as it is. *)
Definition get_reset_time (now : Q) (key : string) (L : SlidingWindowLimiter)
  : Q * SlidingWindowLimiter :=
  let '(q, L1) := getitem key L in
  match q with
  | [] => (0%Q, L1)
  | oldest_request :: _ =>
      let reset_time := (oldest_request + inject_Z (sw_window_seconds L1))%Q in
      (Qmax 0 (reset_time - now), L1)
  end.

(** The specification's reading of [get_reset_time]: the timestamps older
    than [now - window_seconds] are evicted first, and the oldest surviving
    one decides. *)
Definition get_reset_time_spec (now : Q) (key : string)
  (L : SlidingWindowLimiter) : Q :=
  let stored := default [] (requests L !! key) in
  let surviving :=
    popleft_older (now - inject_Z (sw_window_seconds L))%Q stored in
  match surviving with
  | [] => 0%Q
  | oldest :: _ => Qmax 0 (oldest + inject_Z (sw_window_seconds L) - now)
  end.

End SlidingWindow.

(** ** Fixed window ([13_rate_limiting.py], lines 136-174) *)

Record Window : Type := mkWindow {
  w_start : Z;
  w_count : Z
}.

Record FixedWindowCounter : Type := mkFixedWindowCounter {
  fw_max_requests : Z;
  fw_window_seconds : Z;
  windows : gmap string Window
}.

Module FixedWindow.

Definition init (max_requests window_seconds : Z) : FixedWindowCounter :=
  {| fw_max_requests := max_requests;
     fw_window_seconds := window_seconds;
     windows := ∅ |}.

Definition set_windows (ws : gmap string Window) (C : FixedWindowCounter)
  : FixedWindowCounter :=
  {| fw_max_requests := fw_max_requests C;
     fw_window_seconds := fw_window_seconds C;
     windows := ws |}.

(** [int(now / self.window_seconds) * self.window_seconds]; the division
    raises for a zero window. *)
Definition window_start (now : Q) (window_seconds : Z) : Result Z :=
  if window_seconds =? 0 then Raise "ZeroDivisionError"
  else Ok (py_int (now / inject_Z window_seconds) * window_seconds).

(** [_get_current_window]: the window of [key], replaced by a fresh one when
    it is missing or belongs to another window start. *)
Definition _get_current_window (now : Q) (key : string) (C : FixedWindowCounter)
  : Result (Window * FixedWindowCounter) :=
  match window_start now (fw_window_seconds C) with
  | Raise exn => Raise exn
  | Ok ws =>
      let stale :=
        match windows C !! key with
        | None => true
        | Some w => negb (w_start w =? ws)
        end in
      if stale then
        let w := {| w_start := ws; w_count := 0 |} in
        Ok (w, set_windows (<[key := w]> (windows C)) C)
      else
        match windows C !! key with
        | Some w => Ok (w, C)
        | None => Raise "KeyError"
        end
  end.

Definition allow_request (now : Q) (key : string) (C : FixedWindowCounter)
  : Result (bool * FixedWindowCounter) :=
  match _get_current_window now key C with
  | Raise exn => Raise exn
  | Ok (window, C1) =>
      if w_count window <? fw_max_requests C1 then
        let w := {| w_start := w_start window; w_count := w_count window + 1 |} in
        Ok (true, set_windows (<[key := w]> (windows C1)) C1)
      else Ok (false, C1)
  end.

Definition get_remaining_requests (now : Q) (key : string)
  (C : FixedWindowCounter) : Result (Z * FixedWindowCounter) :=
  match _get_current_window now key C with
  | Raise exn => Raise exn
  | Ok (window, C1) => Ok (Z.max 0 (fw_max_requests C1 - w_count window), C1)
  end.

(** The count the admission test sees: the stored one when the stored window
    is the current one, zero after the reset. *)
Definition count_before_test (current_start : Z) (key : string)
  (C : FixedWindowCounter) : Z :=
  match windows C !! key with
  | Some w => if w_start w =? current_start then w_count w else 0
  | None => 0
  end.

End FixedWindow.

(** ** Auxiliary notions for the statements *)

(** The values that strictly alternating round-robin calls return: [a], [b],
    [a], [b], ... *)
Fixpoint alternate (n : nat) (a b : string) : list (Result (option string)) :=
  match n with
  | O => []
  | S k => Ok (Some a) :: alternate k b a
  end.

(** The list stored for a service after [url] has been registered on
    [urls]. *)
Definition registered (url : string) (urls : list string) : list string :=
  if py_in url urls then urls else urls ++ [url].

(** The events that a call appended to the trace. *)
Definition new_events (before after : Gateway) : list Event :=
  drop (length (trace before)) (trace after).

(** The breaker of a service as stored in the gateway's registry. *)
Definition breaker_of (service_name : string) (g : Gateway)
  : option CircuitBreaker :=
  circuit_breakers (registry g) !! service_name.

(** A gateway whose ["users"] breaker has been opened by five failures at
    time zero. *)
Definition gateway_with_open_users : Gateway :=
  {| registry :=
       APIGateway.update_breaker "users"
         (Breaker.record_failures [0%Q; 0%Q; 0%Q; 0%Q; 0%Q]
            (Breaker.init ServiceConfig.FAILURE_THRESHOLD
                          ServiceConfig.TIMEOUT_SECONDS))
         Registry.init;
     http_client := false;
     trace := [] |}.

(** A fresh gateway process. *)
Definition gateway_init : Gateway :=
  {| registry := Registry.init; http_client := false; trace := [] |}.

(** Mocked transports: a backend that answers 500 with an empty body, and a
    backend that cannot be reached. *)
Definition client_500 (rq : Request) : TransportOutcome :=
  Responded {| status_code := 500; response_text := "";
               response_json := Raise "JSONDecodeError";
               response_headers := [] |}.

Definition client_down (rq : Request) : TransportOutcome :=
  RequestError "All connection attempts failed".

(** What the token bucket keeps true of a stored bucket, [t] being the
    latest clock reading: the tokens are within the capacity, and the bucket
    was not updated after [t]. *)
Definition bucket_ok (cap : Z) (t : Q) (b : Bucket) : Prop :=
  (0 <= tokens b)%Q /\ (tokens b <= inject_Z cap)%Q /\ (last_update b <= t)%Q.

Definition buckets_ok (t : Q) (L : TokenBucketLimiter) : Prop :=
  forall key b, buckets L !! key = Some b -> bucket_ok (capacity L) t b.

(** The calls of the repository's own token bucket test: five immediate
    requests, a sixth, and one more 0.2 seconds later. *)
Definition test_calls : list TokenBucket.Call :=
  [ TokenBucket.mkCall "test_key" 1 0 0;
    TokenBucket.mkCall "test_key" 1 0 0;
    TokenBucket.mkCall "test_key" 1 0 0;
    TokenBucket.mkCall "test_key" 1 0 0;
    TokenBucket.mkCall "test_key" 1 0 0;
    TokenBucket.mkCall "test_key" 1 0 0;
    TokenBucket.mkCall "test_key" 1 (1 # 5) (1 # 5) ].

(** A sliding-window limiter (five requests per sixty seconds) after two
    admitted requests of the key ["k"], at times 0 and 50. *)
Definition sliding_after_two_requests : SlidingWindowLimiter :=
  snd (SlidingWindow.allow_request 50 50 "k"
         (snd (SlidingWindow.allow_request 0 0 "k" (SlidingWindow.init 5 60)))).

(** No stored breaker has a negative failure count. *)
Definition breakers_nonneg (r : ServiceRegistry) : Prop :=
  forall name cb, circuit_breakers r !! name = Some cb -> 0 <= failure_count cb.

(** The answers of a sequence of token bucket calls, in order. *)
Fixpoint answers (calls : list TokenBucket.Call) (L : TokenBucketLimiter)
  : list bool :=
  match calls with
  | [] => []
  | c :: rest =>
      let '(a, L1) :=
        TokenBucket.allow_request (TokenBucket.c_create c)
          (TokenBucket.c_refill c) (TokenBucket.c_key c)
          (TokenBucket.c_tokens_needed c) L in
      a :: answers rest L1
  end.

(** ** Further operations of the two modules *)

(** *** Runs of breaker method calls *)

Module BreakerOps.

(** One method call on a breaker, with the clock reading it takes. *)
Inductive Op : Type :=
| OpSuccess
| OpFailure (now : Q)
| OpAttempt (now : Q).

Definition apply (cb : CircuitBreaker) (op : Op) : CircuitBreaker :=
  match op with
  | OpSuccess => Breaker.record_success cb
  | OpFailure now => Breaker.record_failure now cb
  | OpAttempt now => snd (Breaker.can_attempt now cb)
  end.

Definition run (ops : list Op) (cb : CircuitBreaker) : CircuitBreaker :=
  fold_left apply ops cb.

End BreakerOps.

(** *** The health endpoint and the authorisation of the gateway
    ([13_api_gateway.py], lines 280-294, 339-361 and 378-385) *)

Record ServiceHealth : Type := mkServiceHealth {
  h_status : CircuitState;
  h_healthy : bool
}.

Record HealthReport : Type := mkHealthReport {
  hr_gateway : string;
  hr_services : list (string * ServiceHealth);
  hr_overall_status : string
}.

(** An entry of [API_KEYS]. *)
Record ApiUser : Type := mkApiUser {
  user_id : Z;
  role : string
}.

(** What [verify_api_key] gives: the entry of the key, or the
    [HTTPException] it raises. *)
Inductive AuthResult : Type :=
| Authenticated (user : ApiUser)
| Unauthorized (status : Z) (detail : string).

(** How a route handler ends: the value it returns, the [HTTPException]
    it raises, or another exception. *)
Inductive EndpointOutcome : Type :=
| Responds (data : Json)
| Fails (status : Z) (detail : string)
| Crashes (exn : string).

Module GatewayApp.

(** [result["data"]] of a finished [proxy_request]. *)
Definition result_data (out : ProxyOutcome) : EndpointOutcome :=
  match out with
  | Returned p => Responds (p_data p)
  | HTTPException status detail => Fails status detail
  | Propagated exn => Crashes exn
  end.

(** [services_health[name] = ...] on a dictionary kept in insertion order. *)
Fixpoint dict_set {A : Type} (k : string) (v : A) (d : list (string * A))
  : list (string * A) :=
  match d with
  | [] => [(k, v)]
  | (k', v') :: rest =>
      if String.eqb k k' then (k, v) :: rest else (k', v') :: dict_set k v rest
  end.

(** The loop body of [health_check]. *)
Definition health_step (acc : list (string * ServiceHealth) * ServiceRegistry)
  (service_name : string) : list (string * ServiceHealth) * ServiceRegistry :=
  let '(services_health, r) := acc in
  let '(cb, r1) := Registry.get_circuit_breaker service_name r in
  (dict_set service_name
     {| h_status := state cb;
        h_healthy := negb (CircuitState_eqb (state cb) OPEN) |}
     services_health,
   r1).

(** [health_check] on the module-level registry. *)
Definition health_check (r : ServiceRegistry) : HealthReport * ServiceRegistry :=
  let '(services_health, r1) :=
    fold_left health_step ["users"; "products"; "orders"]%string ([], r) in
  let all_healthy := forallb (fun s => h_healthy (snd s)) services_health in
  ({| hr_gateway := "healthy";
      hr_services := services_health;
      hr_overall_status := if all_healthy then "healthy" else "degraded" |},
   r1).

(** [API_KEYS] *)
Definition API_KEYS : gmap string ApiUser :=
  <["user_key_123" := {| user_id := 1; role := "user" |}]>
  (<["admin_key_456" := {| user_id := 2; role := "admin" |}]> ∅).

(** [verify_api_key]: the header value, [None] when the header is absent. *)
Definition verify_api_key (x_api_key : option string) : AuthResult :=
  match x_api_key with
  | None | Some "" => Unauthorized 401 "API key required"
  | Some key =>
      match API_KEYS !! key with
      | None => Unauthorized 401 "Invalid API key"
      | Some user => Authenticated user
      end
  end.

(** [create_user], the body of [POST /api/users]; [auth] is what
    [verify_api_key] returned. *)
Definition create_user (client : Request -> TransportOutcome) (clk : Clock)
  (user_data : Json) (auth : ApiUser) (g : Gateway)
  : EndpointOutcome * Gateway :=
  if negb (String.eqb (role auth) "admin") then
    (Fails 403 "Admin access required", g)
  else
    let '(result, g1) :=
      APIGateway.proxy_request client clk "users" "/users" "POST" None
        (Some user_data) g in
    (result_data result, g1).

(** [POST /api/users] as the framework runs it: the dependency
    [verify_api_key] first, whose exception ends the request, then the
    body. *)
Definition post_api_users (client : Request -> TransportOutcome) (clk : Clock)
  (x_api_key : option string) (user_data : Json) (g : Gateway)
  : EndpointOutcome * Gateway :=
  match verify_api_key x_api_key with
  | Unauthorized status detail => (Fails status detail, g)
  | Authenticated auth => create_user client clk user_data auth g
  end.

End GatewayApp.

(** *** Sequences of proxied requests *)

Record ProxyCall : Type := mkProxyCall {
  pc_client : Request -> TransportOutcome;
  pc_clock : Clock;
  pc_service : string;
  pc_path : string;
  pc_method : string;
  pc_headers : option Headers;
  pc_body : option Json
}.

Module GatewayOps.

Definition call (g : Gateway) (c : ProxyCall) : ProxyOutcome * Gateway :=
  APIGateway.proxy_request (pc_client c) (pc_clock c) (pc_service c)
    (pc_path c) (pc_method c) (pc_headers c) (pc_body c) g.

Definition serve (g : Gateway) (c : ProxyCall) : Gateway := snd (call g c).

Definition serve_all (calls : list ProxyCall) (g : Gateway) : Gateway :=
  fold_left serve calls g.



(** Every URL registered for the service is a non-empty string. *)
Definition urls_nonempty (name : string) (r : ServiceRegistry) : Prop :=
  exists urls, services r !! name = Some urls /\ urls <> [] /\
               Forall (fun u => u <> ""%string) urls.

(** The breaker of [name] has the gateway's configuration, is [CLOSED] and
    has counted [i] failures; a breaker not created yet counts none. *)
Definition closed_with (name : string) (i : Z) (r : ServiceRegistry) : Prop :=
  match circuit_breakers r !! name with
  | None => i = 0
  | Some cb =>
      state cb = CLOSED /\ failure_count cb = i /\
      failure_threshold cb = ServiceConfig.FAILURE_THRESHOLD /\
      timeout_seconds cb = ServiceConfig.TIMEOUT_SECONDS
  end.

(** The methods that [proxy_request] forwards. *)
Definition supported (method : string) : bool :=
  existsb (String.eqb method) ["GET"; "POST"; "PUT"; "DELETE"]%string.

(** A backend that cannot be reached, whatever is asked of it. *)
Definition always_fails (client : Request -> TransportOutcome) : Prop :=
  forall rq, exists text, client rq = RequestError text.


(** A call on the service [name], with a forwarded method, that finds the
    backend unreachable. *)
Definition failing_call (name : string) (c : ProxyCall) : Prop :=
  pc_service c = name /\ supported (pc_method c) = true /\
  always_fails (pc_client c).

(** What [proxy_request] returns or raises once the backend has answered. *)
Definition respond (clk : Clock) (resp : Response) : ProxyOutcome :=
  match (if String.eqb (response_text resp) "" then Ok "{}"%string
         else response_json resp) with
  | Ok d =>
      Returned {| p_status_code := status_code resp;
                  p_data := d;
                  p_headers := response_headers resp;
                  p_response_time_ms :=
                    py_round2 ((t_end clk - t_start clk) * 1000) |}
  | Raise exn => Propagated exn
  end.

End GatewayOps.

(** *** The other methods of the limiters, sequences of calls, and the
    per-user endpoint ([13_rate_limiting.py], lines 80-89, 236-240 and
    449-499) *)

Module TokenBucketOps.

(** [get_wait_time]; the clock is read as in [allow_request].  The division
    by [refill_rate] raises when the rate is zero. *)
Definition get_wait_time (t_create t_refill : Q) (key : string)
  (L : TokenBucketLimiter) : Result Q * TokenBucketLimiter :=
  let '(b, L1) := TokenBucket._get_bucket t_create key L in
  let b1 :=
    TokenBucket._refill_tokens (capacity L1) (refill_rate L1) t_refill b in
  let L2 := TokenBucket.set_buckets (<[key := b1]> (buckets L1)) L1 in
  if Qle_bool 1 (tokens b1) then (Ok 0%Q, L2)
  else
    let tokens_needed := (1 - tokens b1)%Q in
    if Qeq_bool (refill_rate L2) 0 then (Raise "ZeroDivisionError", L2)
    else (Ok (tokens_needed / refill_rate L2)%Q, L2).

(** [n] requests of the same cost made at one instant [t]. *)
Definition immediate (key : string) (cost : Z) (t : Q) (n : nat)
  : list TokenBucket.Call :=
  repeat (TokenBucket.mkCall key cost t t) n.

End TokenBucketOps.

Module SlidingWindowOps.

(** One [allow_request] with its two clock readings. *)
Record Call : Type := mkCall {
  c_key : string;
  c_cleanup : Q;
  c_append : Q
}.

Definition call (L : SlidingWindowLimiter) (c : Call)
  : bool * SlidingWindowLimiter :=
  SlidingWindow.allow_request (c_cleanup c) (c_append c) (c_key c) L.

Definition run (calls : list Call) (L : SlidingWindowLimiter)
  : SlidingWindowLimiter :=
  fold_left (fun L c => snd (call L c)) calls L.

(** The clock never goes back, from [t] on. *)
Fixpoint admissible (t : Q) (calls : list Call) : Prop :=
  match calls with
  | [] => True
  | c :: rest =>
      (t <= c_cleanup c)%Q /\ (c_cleanup c <= c_append c)%Q /\
      admissible (c_append c) rest
  end.

(** The timestamps of the requests of [key] that were admitted, oldest
    first. *)
Fixpoint admitted (key : string) (calls : list Call) (L : SlidingWindowLimiter)
  : list Q :=
  match calls with
  | [] => []
  | c :: rest =>
      let '(answer, L1) := call L c in
      (if answer && String.eqb (c_key c) key then [c_append c] else [])
        ++ admitted key rest L1
  end.

(** The deque stored for a key, empty when there is none. *)
Definition stored (key : string) (L : SlidingWindowLimiter) : list Q :=
  default [] (requests L !! key).

(** The timestamps not older than the cutoff. *)
Definition not_older (cutoff_time : Q) (stamps : list Q) : list Q :=
  List.filter (fun t => Qle_bool cutoff_time t) stamps.

(** The clock reading after a sequence of calls that started at [t]. *)
Fixpoint end_time (t : Q) (calls : list Call) : Q :=
  match calls with
  | [] => t
  | c :: rest => end_time (c_append c) rest
  end.

(** Oldest first. *)
Fixpoint chronological (stamps : list Q) : Prop :=
  match stamps with
  | [] => True
  | a :: rest => Forall (fun b => (a <= b)%Q) rest /\ chronological rest
  end.

(** How the deque stored for a key follows the history of its admitted
    requests at clock reading [t]: the history is chronological and not
    ahead of the clock, and the deque is the history without a prefix of
    timestamps that have all left the window. *)
Definition tracks (window_seconds : Z) (t : Q) (history deque : list Q) : Prop :=
  chronological history /\
  Forall (fun x => (x <= t)%Q) history /\
  exists n : nat,
    (n <= length history)%nat /\
    deque = drop n history /\
    Forall (fun x => (x < t - inject_Z window_seconds)%Q) (take n history).

End SlidingWindowOps.

Module FixedWindowOps.

(** The answers of successive [allow_request] calls of one key at the given
    clock readings; an exception leaves the counter as it was. *)
Fixpoint answers (key : string) (readings : list Q) (C : FixedWindowCounter)
  : list (Result bool) :=
  match readings with
  | [] => []
  | now :: rest =>
      match FixedWindow.allow_request now key C with
      | Ok (a, C1) => Ok a :: answers key rest C1
      | Raise exn => Raise exn :: answers key rest C
      end
  end.

(** One call of any key. *)
Definition step (C : FixedWindowCounter) (c : string * Q) : FixedWindowCounter :=
  match FixedWindow.allow_request (snd c) (fst c) C with
  | Ok (_, C1) => C1
  | Raise _ => C
  end.

Definition run (calls : list (string * Q)) (C : FixedWindowCounter)
  : FixedWindowCounter :=
  fold_left step calls C.

(** How many of the answers are admissions. *)
Definition admissions (answers : list (Result bool)) : nat :=
  length (List.filter (fun r => match r with
                                | Ok true => true
                                | _ => false
                                end) answers).

End FixedWindowOps.

(** The clock readings of one [GET /user/data], in source order: the
    clean-up and the append of [allow_request], [get_remaining_requests],
    and [get_reset_time] (read on the 429 path only). *)
Record UserClock : Type := mkUserClock {
  u_cleanup : Q;
  u_append : Q;
  u_remaining : Q;
  u_reset : Q
}.

(** How [GET /user/data] ends: the 401, the 429 with its detail fields, or
    the response fields; [limit] is the number rendered in
    ["<limit> requests/minute"]. *)
Inductive UserDataOutcome : Type :=
| UserRejected (status : Z) (detail : string)
| UserLimited (remaining : Z) (reset_in_seconds : Q)
| UserServed (tier : string) (limit : Z) (remaining : Z).

Record UserCall : Type := mkUserCall {
  uc_api_key : option string;
  uc_clock : UserClock
}.

Module RateLimitApp.


(** [api_key.startswith("premium_")] *)
Definition is_premium (api_key : string) : bool :=
  String.prefix "premium_" api_key.

(** [get_user_limiter] on the module-level table [user_limiters]. *)
Definition get_user_limiter (api_key : string)
  (user_limiters : gmap string SlidingWindowLimiter)
  : SlidingWindowLimiter * gmap string SlidingWindowLimiter :=
  match user_limiters !! api_key with
  | Some limiter => (limiter, user_limiters)
  | None =>
      let limiter :=
        if is_premium api_key then SlidingWindow.init 100 60
        else SlidingWindow.init 10 60 in
      (limiter, <[api_key := limiter]> user_limiters)
  end.

(** [user_specific_rate_limit], the handler of [GET /user/data].  The
    limiter is the object stored in the table, so what the calls do to it is
    written back under the key. *)
Definition user_specific_rate_limit (clk : UserClock) (api_key : option string)
  (user_limiters : gmap string SlidingWindowLimiter)
  : UserDataOutcome * gmap string SlidingWindowLimiter :=
  match api_key with
  | None | Some "" =>
      (UserRejected 401 "API key required in header", user_limiters)
  | Some key =>
      let '(limiter, table) := get_user_limiter key user_limiters in
      let '(allowed, L1) :=
        SlidingWindow.allow_request (u_cleanup clk) (u_append clk) key limiter in
      if negb allowed then
        let '(remaining, L2) :=
          SlidingWindow.get_remaining_requests (u_remaining clk) key L1 in
        let '(reset_time, L3) :=
          SlidingWindow.get_reset_time (u_reset clk) key L2 in
        (UserLimited remaining (py_round2 reset_time), <[key := L3]> table)
      else
        let '(remaining, L2) :=
          SlidingWindow.get_remaining_requests (u_remaining clk) key L1 in
        let tier := if is_premium key then "premium"%string else "free"%string in
        let limit := if String.eqb tier "premium" then 100 else 10 in
        (UserServed tier limit remaining, <[key := L2]> table)
  end.

Definition serve (table : gmap string SlidingWindowLimiter) (c : UserCall)
  : UserDataOutcome * gmap string SlidingWindowLimiter :=
  user_specific_rate_limit (uc_clock c) (uc_api_key c) table.

Definition run (calls : list UserCall)
  (table : gmap string SlidingWindowLimiter)
  : gmap string SlidingWindowLimiter :=
  fold_left (fun t c => snd (serve t c)) calls table.

Definition served (out : UserDataOutcome) : bool :=
  match out with
  | UserServed _ _ _ => true
  | _ => false
  end.

(** The timestamps of the requests of [key] that were served, oldest
    first. *)
Fixpoint served_stamps (key : string) (calls : list UserCall)
  (table : gmap string SlidingWindowLimiter) : list Q :=
  match calls with
  | [] => []
  | c :: rest =>
      let '(out, table1) := serve table c in
      (if served out &&
          match uc_api_key c with
          | Some k => String.eqb k key
          | None => false
          end
       then [u_append (uc_clock c)] else [])
        ++ served_stamps key rest table1
  end.

(** The clock never goes back, from [t] on. *)
Fixpoint admissible (t : Q) (calls : list UserCall) : Prop :=
  match calls with
  | [] => True
  | c :: rest =>
      (t <= u_cleanup (uc_clock c))%Q /\
      (u_cleanup (uc_clock c) <= u_append (uc_clock c))%Q /\
      (u_append (uc_clock c) <= u_remaining (uc_clock c))%Q /\
      (u_remaining (uc_clock c) <= u_reset (uc_clock c))%Q /\
      admissible (u_reset (uc_clock c)) rest
  end.

Fixpoint end_time (t : Q) (calls : list UserCall) : Q :=
  match calls with
  | [] => t
  | c :: rest => end_time (u_reset (uc_clock c)) rest
  end.

(** The requests per minute of the tier of a key. *)
Definition limit_of (key : string) : Z := if is_premium key then 100 else 10.

(** What the table keeps true of the limiter of [key], [history] being the
    timestamps of its served requests and [t] the latest clock reading. *)
Definition follows (key : string) (t : Q) (history : list Q)
  (table : gmap string SlidingWindowLimiter) : Prop :=
  match table !! key with
  | None => history = []
  | Some L =>
      sw_max_requests L = limit_of key /\ sw_window_seconds L = 60 /\
      SlidingWindowOps.tracks 60 t history (SlidingWindowOps.stored key L)
  end.

End RateLimitApp.

(** * Properties *)

(** ** Circuit breaker *)

Lemma Qle_bool_false (a b : Q) : (b < a)%Q -> Qle_bool a b = false.
Proof.
  intros Hlt. destruct (Qle_bool a b) eqn:E; [|reflexivity].
  apply Qle_bool_iff in E. exfalso. apply (Qlt_not_le _ _ Hlt E).
Qed.

Lemma Qle_bool_true (a b : Q) : (a <= b)%Q -> Qle_bool a b = true.
Proof. intros H. now apply Qle_bool_iff. Qed.

Lemma record_failures_snoc (times : list Q) (t : Q) (cb : CircuitBreaker) :
  Breaker.record_failures (times ++ [t]) cb =
  Breaker.record_failure t (Breaker.record_failures times cb).
Proof. unfold Breaker.record_failures. now rewrite fold_left_app. Qed.

(** Failures only count up and leave the configuration alone. *)
Lemma record_failures_fields (times : list Q) (cb : CircuitBreaker) :
  failure_count (Breaker.record_failures times cb) =
    failure_count cb + Z.of_nat (length times) /\
  failure_threshold (Breaker.record_failures times cb) = failure_threshold cb /\
  timeout_seconds (Breaker.record_failures times cb) = timeout_seconds cb.
Proof.
  induction times as [|t times IH] using rev_ind.
  - cbn. repeat split; lia.
  - rewrite record_failures_snoc, length_app. cbn [length].
    destruct IH as (Hc & Ht & Hs). cbn. repeat split; try assumption. lia.
Qed.

(** The breaker state is never negative on its failure count. *)
Lemma record_failure_count_nonneg (now : Q) (cb : CircuitBreaker) :
  0 <= failure_count cb -> 0 <= failure_count (Breaker.record_failure now cb).
Proof. cbn. lia. Qed.

Lemma record_success_count (cb : CircuitBreaker) :
  failure_count (Breaker.record_success cb) = 0.
Proof. unfold Breaker.record_success. cbn. now destruct (state cb). Qed.

Lemma can_attempt_count (now : Q) (cb : CircuitBreaker) :
  failure_count (snd (Breaker.can_attempt now cb)) = failure_count cb.
Proof.
  unfold Breaker.can_attempt.
  destruct (state cb); [reflexivity | | reflexivity].
  destruct (last_failure_time cb) as [l|]; [|reflexivity].
  now destruct (Qle_bool _ _).
Qed.

(** C1. Full cycle of the breaker.  A new breaker is [CLOSED].  After
    [failure_threshold] consecutive [record_failure] calls ([times] holds
    their clock readings, [t_last] is the reading of the last failure) it is
    [OPEN]; [can_attempt] then answers [false] and changes nothing as long as
    less than [timeout_seconds] have elapsed since [t_last]; once at least
    [timeout_seconds] have elapsed it answers [true] and leaves the breaker
    [HALF_OPEN]; a [record_success] after that gives state [CLOSED] and a
    failure count of zero. *)
Theorem circuit_breaker_full_cycle
  (threshold timeout : Z) (times : list Q) (t_last : Q) :
  Z.of_nat (length times) = threshold ->
  last times = Some t_last ->
  let cb0 := Breaker.init threshold timeout in
  let cb := Breaker.record_failures times cb0 in
  state cb0 = CLOSED /\
  state cb = OPEN /\
  (forall now : Q, (now - t_last < inject_Z timeout)%Q ->
     Breaker.can_attempt now cb = (false, cb)) /\
  (forall now : Q, (inject_Z timeout <= now - t_last)%Q ->
     let probe := Breaker.can_attempt now cb in
     fst probe = true /\
     state (snd probe) = HALF_OPEN /\
     state (Breaker.record_success (snd probe)) = CLOSED /\
     failure_count (Breaker.record_success (snd probe)) = 0).
Proof.
  intros Hlen Hlast cb0 cb.
  destruct times as [|t0 ts] using rev_ind; [discriminate Hlast|].
  clear IHts. rewrite last_snoc in Hlast. injection Hlast as ->.
  assert (Hstate : state cb = OPEN /\ last_failure_time cb = Some t_last
                   /\ timeout_seconds cb = timeout).
  { subst cb. rewrite record_failures_snoc.
    destruct (record_failures_fields ts cb0) as (Hc & Ht & Hs).
    rewrite length_app in Hlen. cbn [length] in Hlen.
    cbn. rewrite Hc, Ht, Hs. cbn.
    replace (threshold <=? 0 + Z.of_nat (length ts) + 1) with true
      by (symmetry; apply Z.leb_le; lia).
    repeat split. }
  destruct Hstate as (Hopen & Hlf & Hto).
  split; [reflexivity|]. split; [exact Hopen|]. split.
  - intros now Hearly. unfold Breaker.can_attempt.
    rewrite Hopen, Hlf, Hto. now rewrite Qle_bool_false.
  - intros now Hlate probe. subst probe. unfold Breaker.can_attempt.
    rewrite Hopen, Hlf, Hto. rewrite Qle_bool_true by exact Hlate.
    cbn. repeat split.
Qed.

Lemma circuit_breaker_full_cycle_witness :
  let times := [0%Q; (1 # 2)%Q; 1%Q] in
  let cb := Breaker.record_failures times (Breaker.init 3 1) in
  Z.of_nat (length times) = 3 /\ last times = Some 1%Q /\
  state cb = OPEN /\
  Breaker.can_attempt (3 # 2) cb = (false, cb) /\
  fst (Breaker.can_attempt (21 # 10) cb) = true /\
  state (snd (Breaker.can_attempt (21 # 10) cb)) = HALF_OPEN.
Proof.
  intros times cb.
  assert (H2 : Z.of_nat (length times) = 3) by reflexivity.
  assert (H3 : last times = Some 1%Q) by reflexivity.
  destruct (circuit_breaker_full_cycle 3 1 times 1%Q H2 H3)
    as (_ & Hopen & Hearly & Hlate).
  split; [exact H2|]. split; [exact H3|].
  split; [exact Hopen|].
  split; [apply Hearly; reflexivity|].
  destruct (Hlate (21 # 10)%Q) as (Hok & Hhalf & _).
  - unfold Qle. simpl. lia.
  - split; [exact Hok | exact Hhalf].
Defined.

(** C9. Frame of [record_success]: the failure count becomes zero; the last
    failure time, the threshold and the timeout are kept in every case; the
    state changes only from [HALF_OPEN] (to [CLOSED]), so that a success
    recorded on an [OPEN] breaker leaves it [OPEN]. *)
Theorem record_success_frame (cb : CircuitBreaker) :
  let cb' := Breaker.record_success cb in
  failure_count cb' = 0 /\
  last_failure_time cb' = last_failure_time cb /\
  failure_threshold cb' = failure_threshold cb /\
  timeout_seconds cb' = timeout_seconds cb /\
  state cb' = match state cb with
              | HALF_OPEN => CLOSED
              | OPEN => OPEN
              | CLOSED => CLOSED
              end /\
  state (Breaker.record_success (Breaker.set_state OPEN cb)) = OPEN.
Proof.
  unfold Breaker.record_success. cbn.
  destruct (state cb); cbn; repeat split.
Qed.

(** ** Service registry *)

Lemma py_in_true (x : string) (l : list string) : py_in x l = true <-> x ∈ l.
Proof.
  unfold py_in. rewrite existsb_exists, list_elem_of_In. split.
  - intros (y & Hy & E). apply String.eqb_eq in E. now subst.
  - intros H. exists x. split; [exact H | apply String.eqb_refl].
Qed.

Lemma py_in_false (x : string) (l : list string) : py_in x l = false <-> x ∉ l.
Proof.
  rewrite <- py_in_true. destruct (py_in x l); split; congruence.
Qed.

Lemma register_service_unfold (name url : string) (r : ServiceRegistry) :
  Registry.register_service name url r =
  Registry.set_services
    (<[name := registered url (default [] (services r !! name))]> (services r)) r.
Proof.
  unfold Registry.register_service, registered.
  destruct (services r !! name) as [urls|] eqn:E.
  - rewrite E. unfold default, from_option, id.
    destruct (py_in url urls) eqn:Hin.
    + rewrite insert_id by exact E. now destruct r.
    + reflexivity.
  - unfold default, from_option, id.
    cbn [Registry.set_services services]. rewrite lookup_insert_eq.
    destruct (py_in url []) eqn:Hin; [discriminate Hin|].
    unfold Registry.set_services. cbn. now rewrite insert_insert_eq.
Qed.

Lemma registered_elem (url : string) (urls : list string) :
  url ∈ registered url urls.
Proof.
  unfold registered. destruct (py_in url urls) eqn:E.
  - now apply py_in_true.
  - apply elem_of_app. right. apply list_elem_of_singleton. reflexivity.
Qed.

Lemma registered_NoDup (url : string) (urls : list string) :
  NoDup urls -> NoDup (registered url urls).
Proof.
  intros Hnd. unfold registered. destruct (py_in url urls) eqn:E; [exact Hnd|].
  apply py_in_false in E. apply NoDup_app. split; [exact Hnd|]. split.
  - intros x Hx Hx'. apply list_elem_of_singleton in Hx'. now subst.
  - apply NoDup_singleton.
Qed.

Lemma registered_length (url : string) (urls : list string) :
  (length urls <= length (registered url urls))%nat.
Proof.
  unfold registered. destruct (py_in url urls); [lia|].
  rewrite length_app. lia.
Qed.

Lemma registered_fixed (url : string) (urls : list string) :
  registered url (registered url urls) = registered url urls.
Proof.
  unfold registered at 1.
  now rewrite (proj2 (py_in_true _ _) (registered_elem url urls)).
Qed.

(** A duplicate-free list holds each of its members exactly once. *)
Lemma NoDup_count_occ_one (x : string) (l : list string) :
  NoDup l -> x ∈ l -> count_occ String.string_dec l x = 1%nat.
Proof.
  intros Hnd Hin.
  apply NoDup_ListNoDup in Hnd.
  pose proof (proj1 (List.NoDup_count_occ String.string_dec l) Hnd x) as Hle.
  apply list_elem_of_In in Hin.
  apply (count_occ_In String.string_dec) in Hin. lia.
Qed.

(** The invariant holds initially and is kept by every method. *)
Lemma init_wf : Registry.wf Registry.init.
Proof.
  split.
  - intros name urls H. unfold Registry.init in H. cbn in H.
    repeat (apply lookup_insert_Some in H as [[_ <-]|[_ H]];
            [apply NoDup_singleton|]).
    now rewrite lookup_empty in H.
  - intros name i H. cbn in H. now rewrite lookup_empty in H.
Qed.

Lemma register_service_wf (name url : string) (r : ServiceRegistry) :
  Registry.wf r -> Registry.wf (Registry.register_service name url r).
Proof.
  intros [Hnd Hix]. rewrite register_service_unfold. split; cbn.
  - intros n urls H. apply lookup_insert_Some in H as [[<- <-]|[Hne H]].
    + apply registered_NoDup.
      destruct (services r !! name) as [l|] eqn:E; cbn.
      * now apply (Hnd name).
      * apply NoDup_nil_2.
    + now apply (Hnd n).
  - intros n i H. destruct (Hix n i H) as (urls & Hs & Hr).
    destruct (decide (name = n)) as [->|Hne].
    + rewrite lookup_insert_eq. eexists. split; [reflexivity|].
      rewrite Hs. cbn. pose proof (registered_length url urls). lia.
    + rewrite lookup_insert_ne by exact Hne. now exists urls.
Qed.

Lemma get_circuit_breaker_frame (name : string) (r : ServiceRegistry) :
  services (snd (Registry.get_circuit_breaker name r)) = services r /\
  current_index (snd (Registry.get_circuit_breaker name r)) = current_index r.
Proof.
  unfold Registry.get_circuit_breaker.
  now destruct (circuit_breakers r !! name).
Qed.

(** C6. [register_service] is idempotent: on a registry built by the
    methods of the class (invariant [wf]), a second call with the same name
    and URL leaves the state of the first call; the list of [name] then
    holds [url] exactly once, and the lists of the other services, the
    round-robin indices and the breakers are those from before the call. *)
Theorem register_service_idempotent (name url : string) (r : ServiceRegistry) :
  Registry.wf r ->
  let r1 := Registry.register_service name url r in
  Registry.register_service name url r1 = r1 /\
  (exists urls, services r1 !! name = Some urls /\
                count_occ String.string_dec urls url = 1%nat) /\
  (forall other, other <> name -> services r1 !! other = services r !! other) /\
  current_index r1 = current_index r /\
  circuit_breakers r1 = circuit_breakers r.
Proof.
  intros [Hnd _] r1. subst r1.
  rewrite (register_service_unfold name url (Registry.register_service _ _ r)).
  rewrite !register_service_unfold. cbn.
  rewrite lookup_insert_eq. cbn. rewrite registered_fixed, insert_insert_eq.
  split; [reflexivity|]. split; [|split; [|split; reflexivity]].
  - eexists. split; [reflexivity|].
    apply NoDup_count_occ_one; [|apply registered_elem].
    apply registered_NoDup.
    destruct (services r !! name) as [l|] eqn:E; cbn.
    + now apply (Hnd name).
    + apply NoDup_nil_2.
  - intros other Hne. now rewrite lookup_insert_ne by congruence.
Qed.

Lemma register_service_idempotent_witness :
  let r1 := Registry.register_service "test" "http://localhost:9000"
              Registry.init in
  Registry.wf Registry.init /\
  Registry.register_service "test" "http://localhost:9000" r1 = r1 /\
  current_index r1 = current_index Registry.init.
Proof.
  intros r1.
  destruct (register_service_idempotent "test" "http://localhost:9000"
              Registry.init init_wf) as (Hidem & _ & _ & Hix & _).
  split; [exact init_wf|]. split; [exact Hidem | exact Hix].
Defined.

Lemma py_index_in_range {A : Type} (l : list A) (i : Z) :
  0 <= i < Z.of_nat (length l) -> py_index l i = l !! Z.to_nat i.
Proof.
  intros [Hlo Hhi]. unfold py_index.
  now rewrite (proj2 (Z.leb_le _ _) Hlo), (proj2 (Z.ltb_lt _ _) Hhi).
Qed.

(** The stored index of a service, zero when none is stored yet. *)
Lemma index_in_range (name : string) (urls : list string) (r : ServiceRegistry) :
  Registry.wf r -> services r !! name = Some urls -> urls <> [] ->
  0 <= default 0 (current_index r !! name) < Z.of_nat (length urls).
Proof.
  intros [_ Hix] Hs Hne.
  destruct (current_index r !! name) as [i|] eqn:E; cbn.
  - destruct (Hix name i E) as (urls' & Hs' & Hr). congruence.
  - destruct urls; [congruence | cbn; lia].
Qed.

Lemma get_service_url_none (name : string) (r : ServiceRegistry) :
  services r !! name = None \/ services r !! name = Some [] ->
  Registry.get_service_url name r = (Ok None, r).
Proof.
  unfold Registry.get_service_url. now intros [-> | ->].
Qed.

Lemma get_service_url_some (name : string) (urls : list string)
  (r : ServiceRegistry) :
  Registry.wf r -> services r !! name = Some urls -> urls <> [] ->
  let i := default 0 (current_index r !! name) in
  exists url,
    py_index urls i = Some url /\
    Registry.get_service_url name r =
      (Ok (Some url),
       Registry.set_current_index
         (<[name := (i + 1) mod Z.of_nat (length urls)]> (current_index r)) r).
Proof.
  intros Hwf Hs Hne i.
  pose proof (index_in_range name urls r Hwf Hs Hne) as Hr. fold i in Hr.
  destruct (lookup_lt_is_Some_2 urls (Z.to_nat i)) as [url Hurl]; [lia|].
  exists url. rewrite py_index_in_range by exact Hr. split; [exact Hurl|].
  unfold Registry.get_service_url. rewrite Hs.
  destruct urls as [|u0 us]; [congruence|].
  subst i. destruct (current_index r !! name) as [j|] eqn:E; cbn in *.
  - rewrite E. rewrite py_index_in_range by exact Hr. cbn. now rewrite Hurl.
  - rewrite lookup_insert_eq. rewrite py_index_in_range by exact Hr.
    rewrite Hurl. unfold Registry.set_current_index. cbn.
    now rewrite insert_insert_eq.
Qed.

Lemma get_service_url_wf (name : string) (r : ServiceRegistry) :
  Registry.wf r -> Registry.wf (snd (Registry.get_service_url name r)).
Proof.
  intros Hwf.
  destruct (services r !! name) as [urls|] eqn:Hs;
    [destruct (decide (urls = [])) as [->|Hne]|].
  - rewrite get_service_url_none by (now right). exact Hwf.
  - destruct (get_service_url_some name urls r Hwf Hs Hne) as (url & _ & ->).
    destruct Hwf as [Hnd Hix]. split; cbn; [exact Hnd|].
    intros n i H. apply lookup_insert_Some in H as [[<- <-]|[_ H]].
    + exists urls. split; [exact Hs|]. apply Z.mod_pos_bound.
      destruct urls; [congruence | cbn; lia].
    + now apply Hix.
  - rewrite get_service_url_none by (now left). exact Hwf.
Qed.

(** Two registered instances are served in turn, from whichever the index
    points at. *)
Lemma two_urls_alternate (name u1 u2 : string) (n : nat) :
  forall r : ServiceRegistry,
    Registry.wf r -> services r !! name = Some [u1; u2] ->
    fst (Registry.get_service_urls n name r) =
    if default 0 (current_index r !! name) =? 0
    then alternate n u1 u2 else alternate n u2 u1.
Proof.
  induction n as [|n IH]; intros r Hwf Hs.
  - cbn. now destruct (_ =? _).
  - cbn [Registry.get_service_urls].
    assert (Hne : [u1; u2] <> []) by discriminate.
    pose proof (get_service_url_wf name r Hwf) as Hwf'.
    pose proof (index_in_range name _ r Hwf Hs Hne) as Hr.
    destruct (get_service_url_some name _ r Hwf Hs Hne) as (url & Hurl & Hget).
    rewrite Hget in *. cbn [snd] in Hwf'.
    specialize (IH _ Hwf' Hs). cbn [current_index Registry.set_current_index] in IH.
    rewrite lookup_insert_eq in IH. cbn [default from_option id] in IH.
    destruct (Registry.get_service_urls n name _) as [vs r2]. cbn [fst] in *.
    cbn [length] in *. rewrite py_index_in_range in Hurl by exact Hr.
    set (i := default 0 (current_index r !! name)) in *.
    assert (Hi : i = 0 \/ i = 1) by (cbn in Hr; lia).
    destruct Hi as [Hi | Hi]; rewrite Hi in *; cbn in *;
      injection Hurl as <-; now rewrite IH.
Qed.

(** C5. Round-robin selection, on a registry built by the methods of the
    class (invariant [wf]).  [get_service_url] returns [None] and changes
    nothing when the name is unregistered or its list is empty; otherwise it
    returns [services[name][index]] ([index] being the stored index, zero
    when none is stored yet) and stores [(index + 1) mod len] as the next
    index.  After two distinct URLs have been registered for a name that was
    not registered before, any number of successive calls returns the first
    URL, the second, the first, ... *)
Theorem get_service_url_round_robin (name : string) (r : ServiceRegistry) :
  Registry.wf r ->
  (services r !! name = None \/ services r !! name = Some [] ->
   Registry.get_service_url name r = (Ok None, r)) /\
  (forall urls, services r !! name = Some urls -> urls <> [] ->
     let index := default 0 (current_index r !! name) in
     exists url,
       py_index urls index = Some url /\
       Registry.get_service_url name r =
         (Ok (Some url),
          Registry.set_current_index
            (<[name := (index + 1) mod Z.of_nat (length urls)]>
               (current_index r)) r)) /\
  (forall (u1 u2 : string) (n : nat),
     services r !! name = None -> u1 <> u2 ->
     let r2 := Registry.register_service name u2
                 (Registry.register_service name u1 r) in
     services r2 !! name = Some [u1; u2] /\
     fst (Registry.get_service_urls n name r2) = alternate n u1 u2).
Proof.
  intros Hwf. split; [apply get_service_url_none|].
  split; [intros urls; now apply get_service_url_some|].
  intros u1 u2 n Hfresh Hne r2.
  assert (Hs : services r2 !! name = Some [u1; u2]).
  { subst r2. rewrite !register_service_unfold. cbn.
    rewrite !lookup_insert_eq, Hfresh. cbn. unfold registered. cbn.
    now rewrite (proj2 (String.eqb_neq u2 u1)) by congruence. }
  split; [exact Hs|].
  assert (Hwf2 : Registry.wf r2) by (now do 2 apply register_service_wf).
  rewrite (two_urls_alternate name u1 u2 n r2 Hwf2 Hs).
  assert (Hix : current_index r2 !! name = None).
  { subst r2. rewrite !register_service_unfold. cbn.
    destruct (current_index r !! name) as [i|] eqn:E; [|reflexivity].
    destruct Hwf as [_ Hix]. destruct (Hix name i E) as (? & ? & _). congruence. }
  now rewrite Hix.
Qed.

Lemma get_service_url_round_robin_witness :
  let r2 := Registry.register_service "test" "http://localhost:9001"
              (Registry.register_service "test" "http://localhost:9000"
                 Registry.init) in
  Registry.wf Registry.init /\
  fst (Registry.get_service_urls 5 "test" r2) =
  alternate 5 "http://localhost:9000" "http://localhost:9001".
Proof.
  intros r2.
  destruct (get_service_url_round_robin "test" Registry.init init_wf)
    as (_ & _ & Halt).
  split; [exact init_wf|].
  refine (proj2 (Halt "http://localhost:9000" "http://localhost:9001"
                   5%nat _ _))%string.
  - reflexivity.
  - discriminate.
Defined.

(** ** API gateway *)

(** C7. Failure isolation: when the breaker of the service refuses the
    attempt, [proxy_request] raises the 503 "circuit open" exception whatever
    the transport would answer; nothing is appended to the trace (the transport
    is not invoked), the round-robin indices and the service lists are those
    from before the call, and no HTTP client is created. *)
Theorem proxy_request_circuit_open
  (client : Request -> TransportOutcome) (clk : Clock)
  (service_name path method : string) (headers : option Headers)
  (body : option Json) (g : Gateway) :
  fst (Breaker.can_attempt (t_attempt clk)
         (fst (Registry.get_circuit_breaker service_name (registry g)))) = false ->
  let res := APIGateway.proxy_request client clk service_name path method
               headers body g in
  fst res = HTTPException 503 (APIGateway.circuit_open_detail service_name) /\
  trace (snd res) = trace g /\
  new_events g (snd res) = [] /\
  current_index (registry (snd res)) = current_index (registry g) /\
  services (registry (snd res)) = services (registry g) /\
  http_client (snd res) = http_client g.
Proof.
  intros Hclosed res. subst res. unfold APIGateway.proxy_request.
  pose proof (get_circuit_breaker_frame service_name (registry g)) as [Hs Hi].
  destruct (Registry.get_circuit_breaker service_name (registry g)) as [cb r1].
  cbn [fst snd] in *.
  destruct (Breaker.can_attempt (t_attempt clk) cb) as [ok cb1].
  cbn [fst] in Hclosed. subst ok. cbn.
  unfold new_events. cbn. rewrite drop_all. repeat split; assumption.
Qed.

Lemma proxy_request_circuit_open_witness :
  let clk := {| t_attempt := 10; t_start := 10; t_end := 11; t_failure := 11 |} in
  let res := APIGateway.proxy_request client_500 clk "users" "/users" "GET"
               None None gateway_with_open_users in
  fst (Breaker.can_attempt (t_attempt clk)
         (fst (Registry.get_circuit_breaker "users"
                 (registry gateway_with_open_users)))) = false /\
  fst res = HTTPException 503
              "Service users is currently unavailable (circuit open)" /\
  trace (snd res) = [].
Proof.
  intros clk res.
  assert (H : fst (Breaker.can_attempt (t_attempt clk)
                     (fst (Registry.get_circuit_breaker "users"
                             (registry gateway_with_open_users)))) = false)
    by reflexivity.
  destruct (proxy_request_circuit_open client_500 clk "users" "/users" "GET"
              None None gateway_with_open_users H) as (Hout & Htr & _).
  split; [exact H|]. split; [exact Hout | exact Htr].
Defined.

Lemma get_service_url_breakers (name : string) (r : ServiceRegistry) :
  circuit_breakers (snd (Registry.get_service_url name r)) = circuit_breakers r.
Proof.
  unfold Registry.get_service_url.
  destruct (services r !! name) as [[|u us]|]; try reflexivity.
  destruct (current_index r !! name) as [i|] eqn:E; cbn.
  - rewrite E. now destruct (py_index (u :: us) i).
  - rewrite lookup_insert_eq. now destruct (py_index (u :: us) 0).
Qed.

Lemma new_events_app (g : Gateway) (r : ServiceRegistry) (c : bool)
  (evs : list Event) :
  new_events g (mkGateway r c (trace g ++ evs)) = evs.
Proof. unfold new_events. cbn. apply drop_app_length. Qed.

Lemma new_events_same (g : Gateway) (r : ServiceRegistry) (c : bool) :
  new_events g (mkGateway r c (trace g)) = [].
Proof. unfold new_events. cbn. apply drop_all. Qed.

(** The four ways a [proxy_request] can touch the transport and the
    breaker. *)
Lemma proxy_request_events
  (client : Request -> TransportOutcome) (clk : Clock)
  (service_name path method : string) (headers : option Headers)
  (body : option Json) (g : Gateway) :
  let cb := fst (Registry.get_circuit_breaker service_name (registry g)) in
  let cb1 := snd (Breaker.can_attempt (t_attempt clk) cb) in
  let res := APIGateway.proxy_request client clk service_name path method
               headers body g in
  let events := new_events g (snd res) in
  (events = [] /\ breaker_of service_name (snd res) = Some cb1) \/
  (exists rq exn,
     events = [EvNetCall rq] /\ client rq = OtherException exn /\
     breaker_of service_name (snd res) = Some cb1) \/
  (exists rq resp,
     events = [EvNetCall rq; EvRecordSuccess service_name] /\
     client rq = Responded resp /\
     breaker_of service_name (snd res) = Some (Breaker.record_success cb1)) \/
  (exists rq text,
     events = [EvNetCall rq; EvRecordFailure service_name] /\
     client rq = RequestError text /\
     breaker_of service_name (snd res) =
       Some (Breaker.record_failure (t_failure clk) cb1) /\
     fst res = HTTPException 503
                 (APIGateway.unavailable_detail service_name text)).
Proof.
  intros cb cb1 res events. subst cb cb1 res events.
  unfold APIGateway.proxy_request, breaker_of.
  destruct (Registry.get_circuit_breaker service_name (registry g)) as [cb r1].
  cbn [fst snd].
  destruct (Breaker.can_attempt (t_attempt clk) cb) as [ok cb1]. cbn [snd].
  set (r2 := APIGateway.update_breaker service_name cb1 r1).
  assert (H2 : circuit_breakers r2 !! service_name = Some cb1)
    by (subst r2; cbn; apply lookup_insert_eq).
  destruct ok; cbn [negb].
  2:{ left. cbn [snd registry]. now rewrite new_events_same. }
  pose proof (get_service_url_breakers service_name r2) as Hb.
  destruct (Registry.get_service_url service_name r2) as [found r3].
  cbn [snd] in Hb. rewrite <- Hb in H2.
  destruct found as [[[|c url]|]|exn];
    try (left; cbn [snd registry]; now rewrite new_events_same).
  destruct (APIGateway.build_request method _ headers body) as [rq|];
    [|left; cbn [snd registry]; now rewrite new_events_same].
  destruct (client rq) as [resp|text|exn] eqn:Hc.
  - right. right. left. exists rq, resp.
    assert (Hev : forall p : ProxyOutcome * Gateway,
              snd p = mkGateway
                        (APIGateway.update_breaker service_name
                           (Breaker.record_success cb1) r3) true
                        ((trace g ++ [EvNetCall rq]) ++
                           [EvRecordSuccess service_name]) ->
              new_events g (snd p) = [EvNetCall rq; EvRecordSuccess service_name]
              /\ client rq = Responded resp
              /\ circuit_breakers (registry (snd p)) !! service_name =
                   Some (Breaker.record_success cb1)).
    { intros p ->. rewrite <- app_assoc, new_events_app. cbn.
      now rewrite lookup_insert_eq. }
    destruct (if String.eqb (response_text resp) "" then _ else _);
      apply (Hev (_, _)); reflexivity.
  - right. right. right. exists rq, text. cbn [fst snd].
    rewrite <- app_assoc, new_events_app. cbn.
    now rewrite lookup_insert_eq.
  - right. left. exists rq, exn. cbn [snd registry].
    now rewrite new_events_app.
Qed.

Ltac elem_cases H :=
  repeat (apply elem_of_cons in H; destruct H as [H|H];
          [try discriminate H|]);
  try (apply elem_of_nil in H; contradiction H).

(** C8. The breaker follows reachability, not status codes.  For a breaker
    whose failure count is not negative (as [__init__], [record_success] and
    [record_failure] keep it): when the outbound call was made and answered
    with a response, of any status code, [record_success] is called,
    [record_failure] is not, and the failure count afterwards is zero, so not
    above the one before; [record_failure] is called exactly when the
    outbound call was made and raised an [httpx.RequestError] (connection
    error or timeout), and then the 503 exception raised carries the text of
    that error and the failure count has grown by one. *)
Theorem proxy_request_breaker_reachability
  (client : Request -> TransportOutcome) (clk : Clock)
  (service_name path method : string) (headers : option Headers)
  (body : option Json) (g : Gateway) :
  let cb := fst (Registry.get_circuit_breaker service_name (registry g)) in
  0 <= failure_count cb ->
  let res := APIGateway.proxy_request client clk service_name path method
               headers body g in
  let events := new_events g (snd res) in
  (forall rq resp,
     EvNetCall rq ∈ events -> client rq = Responded resp ->
     EvRecordSuccess service_name ∈ events /\
     (EvRecordFailure service_name ∉ events) /\
     exists cb', breaker_of service_name (snd res) = Some cb' /\
                 failure_count cb' = 0 /\
                 failure_count cb' <= failure_count cb) /\
  (EvRecordFailure service_name ∈ events <->
   exists rq text, EvNetCall rq ∈ events /\ client rq = RequestError text) /\
  (forall rq text,
     EvNetCall rq ∈ events -> client rq = RequestError text ->
     fst res = HTTPException 503
                 (APIGateway.unavailable_detail service_name text) /\
     exists cb', breaker_of service_name (snd res) = Some cb' /\
                 failure_count cb' = failure_count cb + 1).
Proof.
  intros cb Hcount res events.
  pose proof (can_attempt_count (t_attempt clk) cb) as Hkeep.
  destruct (proxy_request_events client clk service_name path method headers
              body g)
    as [[Hev Hb] | [(rq0 & exn & Hev & Hc & Hb)
       | [(rq0 & resp0 & Hev & Hc & Hb) | (rq0 & text0 & Hev & Hc & Hb & Hout)]]];
    fold cb in Hb; fold res in Hev, Hb; fold events in Hev; rewrite Hev.
  - split; [intros rq resp H; elem_cases H|].
    split; [|intros rq text H; elem_cases H].
    split; [intros H; elem_cases H | intros (rq & text & H & _); elem_cases H].
  - split; [intros rq resp H; elem_cases H; congruence|].
    split; [|intros rq text H; elem_cases H; congruence].
    split; [intros H; elem_cases H|].
    intros (rq & text & H & Hrq). elem_cases H. congruence.
  - split.
    { intros rq resp _ _. split; [|split].
      - apply elem_of_cons. right. apply elem_of_cons. now left.
      - intros H. elem_cases H.
      - eexists. split; [exact Hb|]. rewrite record_success_count.
        split; [reflexivity | exact Hcount]. }
    split; [|intros rq text H; elem_cases H; congruence].
    split; [intros H; elem_cases H|].
    intros (rq & text & H & Hrq). elem_cases H. congruence.
  - split; [intros rq resp H; elem_cases H; congruence|].
    split.
    { split; [intros _ | intros _].
      - exists rq0, text0. split; [apply elem_of_cons; now left | exact Hc].
      - apply elem_of_cons. right. apply elem_of_cons. now left. }
    intros rq text H Hrq. elem_cases H.
    assert (text = text0) as -> by congruence.
    fold res in Hout. split; [exact Hout|].
    eexists. split; [exact Hb|]. cbn. now rewrite Hkeep.
Qed.

Lemma proxy_request_breaker_reachability_witness :
  let clk := {| t_attempt := 10; t_start := 10; t_end := 11; t_failure := 11 |} in
  let bad := APIGateway.proxy_request client_500 clk "users" "/users" "GET"
               None None gateway_init in
  let down := APIGateway.proxy_request client_down clk "users" "/users" "GET"
                None None gateway_init in
  0 <= failure_count
         (fst (Registry.get_circuit_breaker "users" (registry gateway_init))) /\
  EvRecordSuccess "users" ∈ new_events gateway_init (snd bad) /\
  EvRecordFailure "users" ∈ new_events gateway_init (snd down).
Proof.
  intros clk bad down.
  assert (H0 : 0 <= failure_count
                      (fst (Registry.get_circuit_breaker "users"
                              (registry gateway_init)))) by (vm_compute; discriminate).
  split; [exact H0|]. split.
  - destruct (proxy_request_breaker_reachability client_500 clk "users" "/users"
                "GET" None None gateway_init H0) as (Hok & _ & _).
    refine (proj1 (Hok (mkRequest "GET" "http://localhost:8001/users" None None)
                     _ _ eq_refl)).
    apply elem_of_cons. now left.
  - destruct (proxy_request_breaker_reachability client_down clk "users" "/users"
                "GET" None None gateway_init H0) as (_ & Hiff & _).
    apply Hiff.
    exists (mkRequest "GET" "http://localhost:8001/users" None None),
           "All connection attempts failed"%string.
    split; [apply elem_of_cons; now left | reflexivity].
Defined.

(** The hypotheses of the statements above are invariants of the running
    gateway: they hold of a fresh process, and [proxy_request] keeps them. *)
Lemma gateway_init_invariants :
  Registry.wf (registry gateway_init) /\ breakers_nonneg (registry gateway_init).
Proof.
  split; [exact init_wf|]. intros name cb H. cbn in H.
  now rewrite lookup_empty in H.
Qed.




(** ** Token bucket *)

Lemma inject_Z_nonneg (z : Z) : 0 <= z -> (0 <= inject_Z z)%Q.
Proof. intros H. change 0%Q with (inject_Z 0). now rewrite <- Zle_Qle. Qed.

(** Refilling keeps a bucket within the capacity when neither the capacity
    nor the rate is negative and the clock has not gone back. *)
Lemma refill_tokens_ok (cap : Z) (rate now t : Q) (b : Bucket) :
  0 <= cap -> (0 <= rate)%Q -> (t <= now)%Q ->
  bucket_ok cap t b ->
  bucket_ok cap now (TokenBucket._refill_tokens cap rate now b).
Proof.
  intros Hcap Hrate Hnow (Hlo & Hhi & Hup).
  assert (Hadd : (0 <= (now - last_update b) * rate)%Q).
  { apply Qmult_le_0_compat; [lra | exact Hrate]. }
  unfold TokenBucket._refill_tokens, bucket_ok. cbn. repeat split.
  - apply Q.min_glb; [now apply inject_Z_nonneg | lra].
  - apply Q.le_min_l.
  - lra.
Qed.

Lemma bucket_ok_later (cap : Z) (t t' : Q) (b : Bucket) :
  (t <= t')%Q -> bucket_ok cap t b -> bucket_ok cap t' b.
Proof. intros Ht (Hlo & Hhi & Hup). repeat split; try assumption. lra. Qed.

(** One admissible call keeps every stored bucket within the capacity. *)
Lemma step_ok (L : TokenBucketLimiter) (c : TokenBucket.Call) (t : Q) :
  0 <= capacity L -> (0 <= refill_rate L)%Q ->
  0 <= TokenBucket.c_tokens_needed c ->
  (t <= TokenBucket.c_create c)%Q ->
  (TokenBucket.c_create c <= TokenBucket.c_refill c)%Q ->
  buckets_ok t L ->
  buckets_ok (TokenBucket.c_refill c) (TokenBucket.step L c) /\
  capacity (TokenBucket.step L c) = capacity L /\
  refill_rate (TokenBucket.step L c) = refill_rate L.
Proof.
  destruct c as [key needed tc tr]. cbn [TokenBucket.c_key
    TokenBucket.c_tokens_needed TokenBucket.c_create TokenBucket.c_refill].
  intros Hcap Hrate Hneed Htc Htr Hok.
  unfold TokenBucket.step, TokenBucket.allow_request. cbn [TokenBucket.c_key
    TokenBucket.c_tokens_needed TokenBucket.c_create TokenBucket.c_refill].
  assert (Hget : exists b,
            bucket_ok (capacity L) tc b /\
            exists bs, TokenBucket._get_bucket tc key L =
                         (b, TokenBucket.set_buckets bs L) /\
                       forall k b', k <> key -> bs !! k = Some b' ->
                                    buckets L !! k = Some b').
  { unfold TokenBucket._get_bucket.
    destruct (buckets L !! key) as [b|] eqn:E.
    - exists b. split; [apply (bucket_ok_later _ t); [exact Htc | now apply (Hok key)]|].
      exists (buckets L). split; [now destruct L | auto].
    - eexists. split; [|eexists; split; [reflexivity|]].
      + repeat split; cbn; [now apply inject_Z_nonneg | lra | lra].
      + intros k b' Hk. now rewrite lookup_insert_ne by congruence. }
  destruct Hget as (b & Hb & bs & -> & Hother).
  cbn [capacity refill_rate buckets TokenBucket.set_buckets].
  pose proof (refill_tokens_ok (capacity L) (refill_rate L) tr tc b
                Hcap Hrate Htr Hb) as (Hlo & Hhi & Hup).
  set (b1 := TokenBucket._refill_tokens (capacity L) (refill_rate L) tr b) in *.
  assert (Hrest : forall k b', k <> key -> bs !! k = Some b' ->
                               bucket_ok (capacity L) tr b').
  { intros k b' Hk Hl. apply (bucket_ok_later _ t); [lra|].
    apply (Hok k). now apply Hother. }
  destruct (Qle_bool (inject_Z needed) (tokens b1)) eqn:Hdebit;
    unfold buckets_ok;
    cbn [snd capacity refill_rate buckets TokenBucket.set_buckets];
    (split; [|split; reflexivity]); intros k b' Hl;
    apply lookup_insert_Some in Hl as [[<- <-]|[Hk Hl]];
    try (now apply (Hrest k)).
  - apply Qle_bool_iff in Hdebit.
    pose proof (inject_Z_nonneg needed Hneed).
    repeat split; cbn [tokens last_update]; [lra | lra | exact Hup].
  - repeat split; assumption.
Qed.

Lemma run_ok (calls : list TokenBucket.Call) :
  forall (L : TokenBucketLimiter) (t : Q),
    0 <= capacity L -> (0 <= refill_rate L)%Q ->
    TokenBucket.admissible t calls -> buckets_ok t L ->
    exists t', buckets_ok t' (TokenBucket.run calls L) /\
               capacity (TokenBucket.run calls L) = capacity L.
Proof.
  induction calls as [|c calls IH]; intros L t Hcap Hrate Hadm Hok.
  - exists t. now split.
  - destruct Hadm as (Hneed & Htc & Htr & Hadm).
    destruct (step_ok L c t Hcap Hrate Hneed Htc Htr Hok) as (Hok' & Hc & Hr).
    destruct (IH (TokenBucket.step L c) (TokenBucket.c_refill c))
      as (t' & Hfin & Hcapfin);
      [now rewrite Hc | now rewrite Hr | exact Hadm | exact Hok' |].
    exists t'.
    change (TokenBucket.run (c :: calls) L)
      with (TokenBucket.run calls (TokenBucket.step L c)).
    split; [exact Hfin | now rewrite Hcapfin].
Qed.

Lemma admissible_take (n : nat) :
  forall (calls : list TokenBucket.Call) (t : Q),
    TokenBucket.admissible t calls -> TokenBucket.admissible t (take n calls).
Proof.
  induction n as [|n IH]; intros [|c calls] t H; cbn; try exact I.
  destruct H as (H1 & H2 & H3 & H4). repeat split; try assumption.
  now apply IH.
Qed.

(** C2. Capacity bound.  For a limiter whose capacity and refill rate are
    not negative, and every finite sequence of [allow_request] calls, on any
    keys, each asking for a non-negative number of tokens, made at clock
    readings that never go back: after every call of the sequence (after
    each of its prefixes), the tokens stored for every key lie between zero
    and the capacity. *)
Theorem token_bucket_capacity_bound
  (cap : Z) (rate : Q) (t0 : Q) (calls : list TokenBucket.Call) :
  0 <= cap -> (0 <= rate)%Q -> TokenBucket.admissible t0 calls ->
  forall (n : nat) (key : string) (b : Bucket),
    buckets (TokenBucket.run (take n calls) (TokenBucket.init cap rate)) !! key
      = Some b ->
    (0 <= tokens b)%Q /\ (tokens b <= inject_Z cap)%Q.
Proof.
  intros Hcap Hrate Hadm n key b Hb.
  destruct (run_ok (take n calls) (TokenBucket.init cap rate) t0)
    as (t' & Hok & Hc); try assumption.
  - now apply admissible_take.
  - intros k b' H. cbn in H. now rewrite lookup_empty in H.
  - destruct (Hok key b Hb) as (Hlo & Hhi & _). rewrite Hc in Hhi.
    now split.
Qed.

Lemma token_bucket_capacity_bound_witness :
  0 <= 5 /\ (0 <= 10)%Q /\ TokenBucket.admissible 0 test_calls /\
  exists b,
    buckets (TokenBucket.run (take 7 test_calls) (TokenBucket.init 5 10))
      !! "test_key" = Some b /\
    (0 <= tokens b)%Q /\ (tokens b <= inject_Z 5)%Q.
Proof.
  assert (H1 : 0 <= 5) by lia.
  assert (H2 : (0 <= 10)%Q) by (unfold Qle; simpl; lia).
  assert (H3 : TokenBucket.admissible 0 test_calls).
  { simpl. unfold Qle. simpl. repeat split; lia. }
  split; [exact H1|]. split; [exact H2|]. split; [exact H3|].
  eexists. split; [vm_compute; reflexivity|].
  eapply (token_bucket_capacity_bound 5 10 0 test_calls H1 H2 H3 7%nat "test_key").
  vm_compute. reflexivity.
Defined.

(** C10. A bucket for a key never seen before is created full: its tokens
    are the capacity.  Hence, for a limiter whose refill rate is not
    negative and a clock that does not go back between the creation and the
    refill, the first [allow_request] on a fresh key asking for
    [0 < tokens_needed <= capacity] tokens returns [true], and debits the
    full bucket. *)
Theorem fresh_bucket_is_full
  (L : TokenBucketLimiter) (key : string) (t_create t_refill : Q)
  (tokens_needed : Z) :
  buckets L !! key = None ->
  (0 <= refill_rate L)%Q ->
  (t_create <= t_refill)%Q ->
  0 < tokens_needed <= capacity L ->
  let created := TokenBucket._get_bucket t_create key L in
  let answer := TokenBucket.allow_request t_create t_refill key tokens_needed L in
  tokens (fst created) = inject_Z (capacity L) /\
  buckets (snd created) !! key =
    Some {| tokens := inject_Z (capacity L); last_update := t_create |} /\
  fst answer = true /\
  exists b, buckets (snd answer) !! key = Some b /\
            (tokens b == inject_Z (capacity L) - inject_Z tokens_needed)%Q.
Proof.
  intros Hfresh Hrate Hclock [Hpos Hle] created answer. subst created answer.
  unfold TokenBucket.allow_request, TokenBucket._get_bucket. rewrite Hfresh.
  cbn [fst snd buckets capacity refill_rate TokenBucket.set_buckets].
  split; [reflexivity|]. split; [apply lookup_insert_eq|].
  set (b1 := TokenBucket._refill_tokens _ _ _ _).
  assert (Hadd : (0 <= (t_refill - t_create) * refill_rate L)%Q).
  { apply Qmult_le_0_compat; [lra | exact Hrate]. }
  assert (Hfull : (tokens b1 == inject_Z (capacity L))%Q).
  { subst b1. unfold TokenBucket._refill_tokens. cbn [tokens last_update].
    apply Q.min_l. lra. }
  assert (Hneed : (inject_Z tokens_needed <= inject_Z (capacity L))%Q)
    by (now rewrite <- Zle_Qle).
  rewrite (Qle_bool_true (inject_Z tokens_needed) (tokens b1))
    by (rewrite Hfull; exact Hneed).
  cbn [fst snd buckets TokenBucket.set_buckets]. split; [reflexivity|].
  eexists. split; [apply lookup_insert_eq|]. cbn [tokens]. now rewrite Hfull.
Qed.

Lemma fresh_bucket_is_full_witness :
  let L := TokenBucket.init 10 2 in
  buckets L !! "ip:127.0.0.1" = None /\
  (0 <= refill_rate L)%Q /\ (0 <= 1 # 1000)%Q /\ 0 < 10 <= capacity L /\
  fst (TokenBucket.allow_request 0 (1 # 1000) "ip:127.0.0.1" 10 L) = true.
Proof.
  intros L.
  assert (H1 : buckets L !! "ip:127.0.0.1" = None) by reflexivity.
  assert (H2 : (0 <= refill_rate L)%Q) by (unfold Qle; simpl; lia).
  assert (H3 : (0 <= 1 # 1000)%Q) by (unfold Qle; simpl; lia).
  assert (H4 : 0 < 10 <= capacity L) by (simpl; lia).
  split; [exact H1|]. split; [exact H2|]. split; [exact H3|].
  split; [exact H4|].
  exact (proj1 (proj2 (proj2
    (fresh_bucket_is_full L "ip:127.0.0.1" 0 (1 # 1000) 10 H1 H2 H3 H4)))).
Defined.

(** The sign condition on the refill rate cannot be dropped: a limiter built
    with a negative rate drains its buckets below zero as time passes. *)
Example negative_rate_leaves_the_bound :
  let calls := [TokenBucket.mkCall "k" 1 0 0; TokenBucket.mkCall "k" 1 20 20] in
  exists b,
    buckets (TokenBucket.run calls (TokenBucket.init 10 (-1))) !! "k" = Some b /\
    (tokens b == -11)%Q.
Proof. eexists. split; [vm_compute; reflexivity | vm_compute; reflexivity]. Qed.

(** ** Fixed window *)

(** On a non-negative float [int] is the floor. *)
Lemma py_int_floor (x : Q) : (0 <= x)%Q -> py_int x = Qfloor x.
Proof.
  destruct x as [n d]. unfold Qle, py_int, Qfloor. cbn. intros H.
  apply Z.quot_div_nonneg; lia.
Qed.

(** With a positive window and a clock that is not negative, the window
    start of the source is the epoch-aligned one,
    [floor(now / window_seconds) * window_seconds]. *)
Lemma window_start_floor (now : Q) (window_seconds : Z) :
  0 < window_seconds -> (0 <= now)%Q ->
  FixedWindow.window_start now window_seconds =
  Ok (Qfloor (now / inject_Z window_seconds) * window_seconds).
Proof.
  intros Hws Hnow. unfold FixedWindow.window_start.
  rewrite (proj2 (Z.eqb_neq window_seconds 0)) by lia.
  rewrite py_int_floor; [reflexivity|].
  assert (Hq : (0 < inject_Z window_seconds)%Q)
    by (change 0%Q with (inject_Z 0); now rewrite <- Zlt_Qlt).
  apply Qle_shift_div_l; [exact Hq | lra].
Qed.

(** [_get_current_window] hands out the window of the current start, with
    the count the test is to see, and stores it under [key]. *)
Lemma get_current_window_spec
  (C : FixedWindowCounter) (now : Q) (key : string) (current : Z) :
  FixedWindow.window_start now (fw_window_seconds C) = Ok current ->
  let w := {| w_start := current;
              w_count := FixedWindow.count_before_test current key C |} in
  exists bs,
    FixedWindow._get_current_window now key C =
      Ok (w, FixedWindow.set_windows bs C) /\
    bs !! key = Some w /\
    forall other, other <> key -> bs !! other = windows C !! other.
Proof.
  intros Hstart w. subst w.
  unfold FixedWindow._get_current_window, FixedWindow.count_before_test.
  rewrite Hstart.
  destruct (windows C !! key) as [[s c]|] eqn:Hw; cbn [w_start w_count].
  - destruct (Z.eqb_spec s current) as [->|Hne]; cbn [negb].
    + exists (windows C). split; [now destruct C|].
      split; [exact Hw | reflexivity].
    + eexists. split; [reflexivity|]. split; [apply lookup_insert_eq|].
      intros other Ho. now rewrite lookup_insert_ne by congruence.
  - eexists. split; [reflexivity|]. split; [apply lookup_insert_eq|].
    intros other Ho. now rewrite lookup_insert_ne by congruence.
Qed.

(** C3. [FixedWindowCounter.allow_request], for a counter with a positive
    window length and a clock reading that is not negative.  Let [current]
    be the epoch-aligned window start
    [floor(now / window_seconds) * window_seconds] and [count] the count the
    test sees: the stored count when the stored window start of [key] is
    [current], and zero (counter reset) when it differs or nothing is stored.
    The call returns [true] exactly when [count < max_requests]; it then
    stores [count + 1], and otherwise stores [count] unchanged; the stored
    window start is [current], and the windows of the other keys are not
    touched. *)
Theorem fixed_window_allow_request
  (C : FixedWindowCounter) (now : Q) (key : string) :
  0 < fw_window_seconds C -> (0 <= now)%Q ->
  let current :=
    Qfloor (now / inject_Z (fw_window_seconds C)) * fw_window_seconds C in
  let count := FixedWindow.count_before_test current key C in
  (forall w, windows C !! key = Some w -> w_start w <> current -> count = 0) /\
  (forall w, windows C !! key = Some w -> w_start w = current ->
             count = w_count w) /\
  exists (answer : bool) (C' : FixedWindowCounter),
    FixedWindow.allow_request now key C = Ok (answer, C') /\
    (answer = true <-> count < fw_max_requests C) /\
    windows C' !! key =
      Some {| w_start := current;
              w_count := if answer then count + 1 else count |} /\
    (forall other, other <> key -> windows C' !! other = windows C !! other) /\
    fw_max_requests C' = fw_max_requests C /\
    fw_window_seconds C' = fw_window_seconds C.
Proof.
  intros Hws Hnow current count.
  assert (Hreset : forall w, windows C !! key = Some w ->
                             w_start w <> current -> count = 0).
  { intros w Hw Hne. subst count. unfold FixedWindow.count_before_test.
    rewrite Hw. now rewrite (proj2 (Z.eqb_neq _ _) Hne). }
  assert (Hkeep : forall w, windows C !! key = Some w ->
                            w_start w = current -> count = w_count w).
  { intros w Hw He. subst count. unfold FixedWindow.count_before_test.
    rewrite Hw. now rewrite (proj2 (Z.eqb_eq _ _) He). }
  split; [exact Hreset|]. split; [exact Hkeep|].
  unfold FixedWindow.allow_request.
  destruct (get_current_window_spec C now key current
              (window_start_floor now _ Hws Hnow)) as (bs & -> & Hbs & Hother).
  fold count in Hbs |- *.
  cbn [w_count w_start fw_max_requests fw_window_seconds windows
       FixedWindow.set_windows].
  destruct (Z.ltb_spec count (fw_max_requests C)) as [Hlt|Hge].
  - eexists true, _. split; [reflexivity|]. split; [tauto|].
    cbn [windows FixedWindow.set_windows].
    split; [apply lookup_insert_eq|]. split; [|split; reflexivity].
    intros other Ho. rewrite lookup_insert_ne by congruence. now apply Hother.
  - eexists false, _. split; [reflexivity|].
    split; [split; [discriminate | lia]|].
    cbn [windows FixedWindow.set_windows].
    split; [exact Hbs|]. split; [exact Hother | split; reflexivity].
Qed.

Lemma fixed_window_allow_request_witness :
  let C := FixedWindow.init 5 1 in
  0 < fw_window_seconds C /\ (0 <= 7 # 2)%Q /\
  FixedWindow.count_before_test 3 "test_key" C = 0 /\
  exists C', FixedWindow.allow_request (7 # 2) "test_key" C = Ok (true, C') /\
             windows C' !! "test_key" = Some {| w_start := 3; w_count := 1 |}.
Proof.
  intros C.
  assert (H1 : 0 < fw_window_seconds C) by (simpl; lia).
  assert (H2 : (0 <= 7 # 2)%Q) by (unfold Qle; simpl; lia).
  split; [exact H1|]. split; [exact H2|]. split; [reflexivity|].
  destruct (fixed_window_allow_request C (7 # 2) "test_key" H1 H2)
    as (_ & _ & answer & C' & Hcall & Hiff & Hstored & _).
  assert (Ht : answer = true) by (apply Hiff; vm_compute; reflexivity).
  subst answer. exists C'. split; [exact Hcall | exact Hstored].
Defined.

(** ** Sliding window *)

Lemma Qlt_bool_true (a b : Q) : (a < b)%Q -> Qlt_bool a b = true.
Proof. intros H. unfold Qlt_bool. now rewrite Qle_bool_false. Qed.

Lemma Qlt_bool_false (a b : Q) : (b <= a)%Q -> Qlt_bool a b = false.
Proof. intros H. unfold Qlt_bool. now rewrite Qle_bool_true. Qed.

(** As long as the front of the stored deque is still inside the window,
    the source and the specification agree. *)
Lemma get_reset_time_fresh_front
  (L : SlidingWindowLimiter) (now : Q) (key : string) (front : Q)
  (rest : list Q) :
  requests L !! key = Some (front :: rest) ->
  (now - inject_Z (sw_window_seconds L) <= front)%Q ->
  fst (SlidingWindow.get_reset_time now key L) =
  SlidingWindow.get_reset_time_spec now key L.
Proof.
  intros Hq Hfresh.
  unfold SlidingWindow.get_reset_time, SlidingWindow.get_reset_time_spec,
    SlidingWindow.getitem.
  rewrite Hq. cbn. now rewrite Qlt_bool_false.
Qed.

(** A front that has left the window is not evicted by [get_reset_time],
    which then answers zero whatever survives behind it. *)
Lemma get_reset_time_stale_front
  (L : SlidingWindowLimiter) (now : Q) (key : string) (front : Q)
  (rest : list Q) :
  requests L !! key = Some (front :: rest) ->
  (front < now - inject_Z (sw_window_seconds L))%Q ->
  (fst (SlidingWindow.get_reset_time now key L) == 0)%Q.
Proof.
  intros Hq Hstale.
  unfold SlidingWindow.get_reset_time, SlidingWindow.getitem.
  rewrite Hq. cbn. apply Q.max_l. lra.
Qed.

(** C4, evaluated on the source.  After requests at times 0 and 50 (window
    of 60 seconds) the stored deque is [[0; 50]].  At time 100 the timestamp
    0 has left the window and 50 survives, so that the time until the oldest
    surviving timestamp leaves the window is 10; [get_reset_time], which does
    not evict, reads the front 0 and answers 0.  Once the sibling
    [get_remaining_requests] has evicted, the same reading answers 10. *)
Theorem get_reset_time_ignores_stale_front :
  requests sliding_after_two_requests !! "k" = Some [0%Q; 50%Q] /\
  (fst (SlidingWindow.get_reset_time 100 "k" sliding_after_two_requests) == 0)%Q /\
  (SlidingWindow.get_reset_time_spec 100 "k" sliding_after_two_requests == 10)%Q /\
  (fst (SlidingWindow.get_reset_time 100 "k"
          (snd (SlidingWindow.get_remaining_requests 100 "k"
                  sliding_after_two_requests))) == 10)%Q /\
  ~ (fst (SlidingWindow.get_reset_time 100 "k" sliding_after_two_requests)
     == SlidingWindow.get_reset_time_spec 100 "k" sliding_after_two_requests)%Q.
Proof.
  split; [vm_compute; reflexivity|].
  split; [vm_compute; reflexivity|].
  split; [vm_compute; reflexivity|].
  split; [vm_compute; reflexivity|].
  vm_compute. discriminate.
Qed.

(** ** The repository's tests, replayed on the model
    ([test_architecture.py]) *)

(** [test_token_bucket_limiter]: five immediate requests pass, the sixth is
    refused, and 0.2 seconds later a request passes again. *)
Example test_token_bucket_limiter :
  answers test_calls (TokenBucket.init 5 10) =
  [true; true; true; true; true; false; true].
Proof. vm_compute. reflexivity. Qed.

(** [test_sliding_window_limiter]: three requests pass, the fourth is
    refused and nothing remains. *)
Example test_sliding_window_limiter :
  let r1 := SlidingWindow.allow_request 0 0 "test_key" (SlidingWindow.init 3 1) in
  let r2 := SlidingWindow.allow_request 0 0 "test_key" (snd r1) in
  let r3 := SlidingWindow.allow_request 0 0 "test_key" (snd r2) in
  let r4 := SlidingWindow.allow_request 0 0 "test_key" (snd r3) in
  (fst r1, fst r2, fst r3, fst r4) = (true, true, true, false) /\
  fst (SlidingWindow.get_remaining_requests 0 "test_key" (snd r4)) = 0.
Proof. vm_compute. split; reflexivity. Qed.

(** [test_fixed_window_counter]: five requests pass, the sixth is refused
    and nothing remains. *)
Example test_fixed_window_counter :
  let call C :=
    match FixedWindow.allow_request (1 # 2) "test_key" C with
    | Ok (a, C1) => (Some a, C1)
    | Raise _ => (None, C)
    end in
  let r1 := call (FixedWindow.init 5 1) in
  let r2 := call (snd r1) in
  let r3 := call (snd r2) in
  let r4 := call (snd r3) in
  let r5 := call (snd r4) in
  let r6 := call (snd r5) in
  [fst r1; fst r2; fst r3; fst r4; fst r5; fst r6] =
  [Some true; Some true; Some true; Some true; Some true; Some false] /\
  exists C, FixedWindow.get_remaining_requests (1 # 2) "test_key" (snd r6)
            = Ok (0, C).
Proof. vm_compute. split; [reflexivity | eexists; reflexivity]. Qed.

(** [test_circuit_breaker]: threshold 3, timeout 1 second, probe after 1.1
    seconds. *)
Example test_circuit_breaker :
  let b0 := Breaker.init 3 1 in
  let b3 := Breaker.record_failures [0%Q; 0%Q; 0%Q] b0 in
  let probe := Breaker.can_attempt (11 # 10) b3 in
  Breaker.can_attempt 0 b0 = (true, b0) /\
  state b3 = OPEN /\
  fst (Breaker.can_attempt 0 b3) = false /\
  fst probe = true /\
  state (snd probe) = HALF_OPEN /\
  state (Breaker.record_success (snd probe)) = CLOSED.
Proof. vm_compute. repeat split. Qed.

(** [test_service_registry]: the two registered URLs come back in order. *)
Example test_service_registry :
  let r := Registry.register_service "test" "http://localhost:9001"
             (Registry.register_service "test" "http://localhost:9000"
                Registry.init) in
  let first := Registry.get_service_url "test" r in
  let second := Registry.get_service_url "test" (snd first) in
  fst first = Ok (Some "http://localhost:9000"%string) /\
  fst second = Ok (Some "http://localhost:9001"%string).
Proof. vm_compute. split; reflexivity. Qed.

(** * Further properties of the code *)

(** ** Circuit breaker: when it trips and how it recovers *)

(** The state after a run of failures on a closed breaker. *)
Lemma record_failures_state (times : list Q) (cb : CircuitBreaker) :
  state cb = CLOSED ->
  state (Breaker.record_failures times cb) =
  if (1 <=? Z.of_nat (length times)) &&
     (failure_threshold cb <=? failure_count cb + Z.of_nat (length times))
  then OPEN else CLOSED.
Proof.
  intros Hclosed. induction times as [|t times IH] using rev_ind.
  - cbn. exact Hclosed.
  - rewrite record_failures_snoc, length_app. cbn [length].
    destruct (record_failures_fields times cb) as (Hc & Ht & _).
    cbn [state Breaker.record_failure]. rewrite Hc, Ht, IH.
    replace (1 <=? Z.of_nat (length times + 1)) with true
      by (symmetry; apply Z.leb_le; lia).
    cbn [andb].
    replace (failure_count cb + Z.of_nat (length times + 1))
      with (failure_count cb + Z.of_nat (length times) + 1) by lia.
    destruct (Z.leb_spec (failure_threshold cb)
                (failure_count cb + Z.of_nat (length times) + 1)) as [H|H];
      [reflexivity|].
    replace (failure_threshold cb <=? failure_count cb + Z.of_nat (length times))
      with false by (symmetry; apply Z.leb_gt; lia).
    now rewrite andb_false_r.
Qed.

(** X1. A new breaker trips exactly at the threshold: after [n] consecutive
    failures it is [OPEN] when [n >= 1] and [n >= failure_threshold], and
    still [CLOSED] otherwise. *)
Theorem breaker_opens_exactly_at_threshold
  (threshold timeout : Z) (times : list Q) :
  state (Breaker.record_failures times (Breaker.init threshold timeout)) =
  if (1 <=? Z.of_nat (length times)) && (threshold <=? Z.of_nat (length times))
  then OPEN else CLOSED.
Proof.
  rewrite record_failures_state by reflexivity. reflexivity.
Qed.

(** X2. Only consecutive failures count: a success recorded on a breaker
    that has not tripped clears the count, so that fewer than
    [failure_threshold] failures before it and fewer than
    [failure_threshold] after it leave the breaker [CLOSED], however many
    they are together. *)
Theorem only_consecutive_failures_trip
  (threshold timeout : Z) (before after : list Q) :
  Z.of_nat (length before) < threshold ->
  Z.of_nat (length after) < threshold ->
  let cb :=
    Breaker.record_failures after
      (Breaker.record_success
         (Breaker.record_failures before (Breaker.init threshold timeout))) in
  state cb = CLOSED /\ failure_count cb = Z.of_nat (length after).
Proof.
  intros Hb Ha cb. subst cb.
  set (cb1 := Breaker.record_failures before _).
  assert (H1 : state cb1 = CLOSED).
  { subst cb1. rewrite record_failures_state by reflexivity.
    cbn [failure_threshold failure_count Breaker.init].
    replace (threshold <=? 0 + Z.of_nat (length before)) with false
      by (symmetry; apply Z.leb_gt; lia).
    now rewrite andb_false_r. }
  assert (Ht1 : failure_threshold cb1 = threshold)
    by (subst cb1; now destruct (record_failures_fields before
                                   (Breaker.init threshold timeout)) as (_ & -> & _)).
  assert (Hc : failure_count (Breaker.record_success cb1) = 0)
    by apply record_success_count.
  assert (Hs : state (Breaker.record_success cb1) = CLOSED)
    by (unfold Breaker.record_success; cbn; now rewrite H1).
  assert (Ht : failure_threshold (Breaker.record_success cb1) =
               failure_threshold cb1)
    by (unfold Breaker.record_success; cbn; now rewrite H1).
  destruct (record_failures_fields after (Breaker.record_success cb1))
    as (Hc2 & _ & _).
  split; [|rewrite Hc2, Hc; lia].
  rewrite record_failures_state by exact Hs. rewrite Hc, Ht, Ht1.
  replace (threshold <=? 0 + Z.of_nat (length after)) with false
    by (symmetry; apply Z.leb_gt; lia).
  now rewrite andb_false_r.
Qed.

Lemma only_consecutive_failures_trip_witness :
  let cb :=
    Breaker.record_failures [2%Q; 3%Q]
      (Breaker.record_success
         (Breaker.record_failures [0%Q; 1%Q] (Breaker.init 3 30))) in
  Z.of_nat (length [0%Q; 1%Q]) < 3 /\ Z.of_nat (length [2%Q; 3%Q]) < 3 /\
  state cb = CLOSED /\ failure_count cb = 2.
Proof.
  intros cb.
  assert (H1 : Z.of_nat (length [0%Q; 1%Q]) < 3) by (simpl; lia).
  assert (H2 : Z.of_nat (length [2%Q; 3%Q]) < 3) by (simpl; lia).
  split; [exact H1|]. split; [exact H2|].
  exact (only_consecutive_failures_trip 3 30 [0%Q; 1%Q] [2%Q; 3%Q] H1 H2).
Defined.

(** Whatever methods are called, in whatever order, the configuration stays
    and a breaker that has left [CLOSED] remembers a last failure. *)
Lemma breaker_run_invariant (threshold timeout : Z) (ops : list BreakerOps.Op) :
  let cb := BreakerOps.run ops (Breaker.init threshold timeout) in
  failure_threshold cb = threshold /\ timeout_seconds cb = timeout /\
  (state cb <> CLOSED -> last_failure_time cb <> None).
Proof.
  induction ops as [|op ops IH] using rev_ind.
  - cbn. repeat split. congruence.
  - unfold BreakerOps.run in *. rewrite fold_left_app. cbn [fold_left].
    set (cb := fold_left BreakerOps.apply ops _) in *.
    cbn zeta in IH. destruct IH as (Ht & Hto & Hl).
    destruct op as [|now|now]; cbn [BreakerOps.apply].
    + unfold Breaker.record_success. cbn.
      destruct (state cb) eqn:E; cbn; repeat split; try assumption;
        try congruence.
    + cbn. repeat split; try assumption. congruence.
    + unfold Breaker.can_attempt.
      destruct (state cb) eqn:E; cbn [snd].
      * repeat split; try assumption. congruence.
      * destruct (last_failure_time cb) as [l|] eqn:El.
        -- destruct (Qle_bool _ _); cbn; repeat split; try assumption;
             rewrite ?El; congruence.
        -- exfalso. apply Hl; congruence.
      * repeat split; try assumption. intros _. apply Hl. congruence.
Qed.

(** X3. An open breaker is never stuck.  After any sequence of
    [record_success], [record_failure] and [can_attempt] calls on a new
    breaker, if the state is [OPEN] then a last failure time [last] is
    stored; [can_attempt] refuses while [now - last < timeout_seconds] and,
    from [now - last >= timeout_seconds] on, answers [true] and moves to
    [HALF_OPEN]. *)
Theorem open_breaker_admits_after_timeout
  (threshold timeout : Z) (ops : list BreakerOps.Op) :
  let cb := BreakerOps.run ops (Breaker.init threshold timeout) in
  state cb = OPEN ->
  exists last,
    last_failure_time cb = Some last /\
    (forall now, (now - last < inject_Z timeout)%Q ->
       Breaker.can_attempt now cb = (false, cb)) /\
    (forall now, (inject_Z timeout <= now - last)%Q ->
       Breaker.can_attempt now cb = (true, Breaker.set_state HALF_OPEN cb)).
Proof.
  intros cb Hopen.
  destruct (breaker_run_invariant threshold timeout ops) as (_ & Hto & Hl).
  fold cb in Hto, Hl.
  destruct (last_failure_time cb) as [last|] eqn:El;
    [|exfalso; apply Hl; congruence].
  exists last. split; [reflexivity|]. split; intros now H;
    unfold Breaker.can_attempt; rewrite Hopen, El, Hto.
  - now rewrite Qle_bool_false.
  - now rewrite Qle_bool_true.
Qed.

Lemma open_breaker_admits_after_timeout_witness :
  let ops := [BreakerOps.OpFailure 0; BreakerOps.OpAttempt 1;
              BreakerOps.OpFailure 2; BreakerOps.OpSuccess] in
  let cb := BreakerOps.run ops (Breaker.init 2 30) in
  state cb = OPEN /\
  exists last, last_failure_time cb = Some last /\
               fst (Breaker.can_attempt 32 cb) = true.
Proof.
  intros ops cb.
  assert (H : state cb = OPEN) by reflexivity.
  split; [exact H|].
  destruct (open_breaker_admits_after_timeout 2 30 ops H)
    as (last & Hl & _ & Hlate).
  exists last. split; [exact Hl|].
  assert (Hq : last = 2%Q) by (vm_compute in Hl; congruence).
  rewrite Hlate; [reflexivity|]. rewrite Hq. unfold Qle. simpl. lia.
Defined.

(** ** Service registry: round robin over any number of instances *)

Lemma get_service_urls_services (n : nat) (name : string) :
  forall r, services (snd (Registry.get_service_urls n name r)) = services r.
Proof.
  induction n as [|n IH]; intros r; [reflexivity|].
  cbn [Registry.get_service_urls].
  assert (Hs : services (snd (Registry.get_service_url name r)) = services r).
  { unfold Registry.get_service_url.
    destruct (services r !! name) as [[|u us]|]; try reflexivity.
    destruct (current_index r !! name) as [i|] eqn:E; cbn.
    - rewrite E. now destruct (py_index (u :: us) i).
    - rewrite lookup_insert_eq. now destruct (py_index (u :: us) 0). }
  destruct (Registry.get_service_url name r) as [v r1]. cbn [snd] in Hs.
  specialize (IH r1).
  destruct (Registry.get_service_urls n name r1) as [vs r2]. cbn [snd] in *.
  congruence.
Qed.

(** X4. Round robin over any list of instances, on a registry built by the
    methods of the class (invariant [wf]): when [urls] is the non-empty list
    of a service and [index] its stored index (zero when none is stored),
    the [k]-th of any number of successive [get_service_url] calls
    (counting from zero) returns [urls[(index + k) mod len(urls)]]; so every
    instance is served once in every [len(urls)] successive calls. *)
Theorem round_robin_cycles_through_instances
  (name : string) (urls : list string) (n : nat) :
  forall r : ServiceRegistry,
    Registry.wf r -> services r !! name = Some urls -> urls <> [] ->
    let index := default 0 (current_index r !! name) in
    fst (Registry.get_service_urls n name r) =
    map (fun k => Ok (py_index urls
                        ((index + Z.of_nat k) mod Z.of_nat (length urls))))
        (seq 0 n).
Proof.
  induction n as [|n IH]; intros r Hwf Hs Hne index; [reflexivity|].
  cbn [Registry.get_service_urls].
  pose proof (get_service_url_wf name r Hwf) as Hwf'.
  pose proof (index_in_range name urls r Hwf Hs Hne) as Hr. fold index in Hr.
  destruct (get_service_url_some name urls r Hwf Hs Hne) as (url & Hurl & Hget).
  fold index in Hurl, Hget. rewrite Hget in *. cbn [snd] in Hwf'.
  specialize (IH _ Hwf' Hs Hne).
  cbn [current_index Registry.set_current_index] in IH.
  rewrite lookup_insert_eq in IH. cbn [default from_option id] in IH.
  destruct (Registry.get_service_urls n name _) as [vs r2]. cbn [fst] in *.
  rewrite IH. cbn [seq map]. f_equal.
  - rewrite Z.add_0_r, Z.mod_small by exact Hr. now rewrite Hurl.
  - rewrite <- seq_shift, map_map. apply map_ext. intros k.
    do 2 f_equal. rewrite Zplus_mod_idemp_l. f_equal. lia.
Qed.

Lemma round_robin_cycles_through_instances_witness :
  let r := Registry.register_service "users" "http://localhost:9001"
             (Registry.register_service "users" "http://localhost:9000"
                Registry.init) in
  Registry.wf r /\
  services r !! "users" =
    Some ["http://localhost:8001"; "http://localhost:9000";
          "http://localhost:9001"]%string /\
  fst (Registry.get_service_urls 4 "users" r) =
    [Ok (Some "http://localhost:8001"); Ok (Some "http://localhost:9000");
     Ok (Some "http://localhost:9001"); Ok (Some "http://localhost:8001")]%string.
Proof.
  intros r.
  assert (Hwf : Registry.wf r)
    by (do 2 apply register_service_wf; exact init_wf).
  assert (Hs : services r !! "users" =
               Some ["http://localhost:8001"; "http://localhost:9000";
                     "http://localhost:9001"]%string) by reflexivity.
  split; [exact Hwf|]. split; [exact Hs|].
  rewrite (round_robin_cycles_through_instances "users" _ 4 r Hwf Hs);
    [reflexivity | discriminate].
Defined.

(** ** API gateway: what a proxied request does to the breaker, the
    registry and the transport *)

Lemma wf_same_services (r r' : ServiceRegistry) :
  services r' = services r -> current_index r' = current_index r ->
  Registry.wf r -> Registry.wf r'.
Proof.
  intros Hs Hi [Hnd Hix]. split.
  - intros name urls H. rewrite Hs in H. now apply (Hnd name).
  - intros name i H. rewrite Hi in H. rewrite Hs. now apply Hix.
Qed.

Lemma get_circuit_breaker_breakers (name : string) (r : ServiceRegistry) :
  circuit_breakers (snd (Registry.get_circuit_breaker name r)) =
  <[name := fst (Registry.get_circuit_breaker name r)]> (circuit_breakers r).
Proof.
  unfold Registry.get_circuit_breaker.
  destruct (circuit_breakers r !! name) as [cb|] eqn:E; cbn [fst snd].
  - now rewrite insert_id.
  - reflexivity.
Qed.

Lemma build_request_supported (method full_url : string)
  (headers : option Headers) (body : option Json) :
  GatewayOps.supported method = true ->
  exists rq, APIGateway.build_request method full_url headers body = Some rq /\
             rq_url rq = full_url.
Proof.
  unfold GatewayOps.supported, APIGateway.build_request. cbn [existsb].
  destruct (String.eqb method "GET"); [intros _; eexists; split; reflexivity|].
  destruct (String.eqb method "POST"); [intros _; eexists; split; reflexivity|].
  destruct (String.eqb method "PUT"); [intros _; eexists; split; reflexivity|].
  destruct (String.eqb method "DELETE"); [intros _; eexists; split; reflexivity|].
  discriminate.
Qed.

Lemma build_request_unsupported (method full_url : string)
  (headers : option Headers) (body : option Json) :
  GatewayOps.supported method = false ->
  APIGateway.build_request method full_url headers body = None.
Proof.
  unfold GatewayOps.supported, APIGateway.build_request. cbn [existsb].
  destruct (String.eqb method "GET"); [discriminate|].
  destruct (String.eqb method "POST"); [discriminate|].
  destruct (String.eqb method "PUT"); [discriminate|].
  destruct (String.eqb method "DELETE"); [discriminate|].
  reflexivity.
Qed.

(** Up to the choice of the instance: with a breaker that admits the
    attempt and a service with registered, non-empty URLs, [proxy_request]
    has picked a URL and advanced the round-robin index. *)
Lemma proxy_request_selects
  (clk : Clock) (service_name : string) (g : Gateway) (cb1 : CircuitBreaker) :
  Registry.wf (registry g) ->
  GatewayOps.urls_nonempty service_name (registry g) ->
  Breaker.can_attempt (t_attempt clk)
    (fst (Registry.get_circuit_breaker service_name (registry g))) = (true, cb1) ->
  exists (c : Ascii.ascii) (url : string) (r3 : ServiceRegistry),
    Registry.get_service_url service_name
      (APIGateway.update_breaker service_name cb1
         (snd (Registry.get_circuit_breaker service_name (registry g)))) =
      (Ok (Some (String c url)), r3) /\
    Registry.wf r3 /\
    services r3 = services (registry g) /\
    circuit_breakers r3 = <[service_name := cb1]> (circuit_breakers (registry g)) /\
    exists urls,
      services (registry g) !! service_name = Some urls /\
      current_index r3 !! service_name =
        Some ((default 0 (current_index (registry g) !! service_name) + 1)
              mod Z.of_nat (length urls)) /\
      forall other, other <> service_name ->
        current_index r3 !! other = current_index (registry g) !! other.
Proof.
  intros Hwf (urls & Hs & Hne & Hall) Hatt.
  pose proof (get_circuit_breaker_frame service_name (registry g)) as [Hs1 Hi1].
  pose proof (get_circuit_breaker_breakers service_name (registry g)) as Hb1.
  set (r1 := snd (Registry.get_circuit_breaker service_name (registry g))) in *.
  set (r2 := APIGateway.update_breaker service_name cb1 r1).
  assert (Hwf2 : Registry.wf r2) by (now apply (wf_same_services (registry g))).
  assert (Hs2 : services r2 !! service_name = Some urls)
    by (subst r2; cbn; now rewrite Hs1).
  destruct (get_service_url_some service_name urls r2 Hwf2 Hs2 Hne)
    as (url & Hurl & Hget).
  pose proof (index_in_range service_name urls r2 Hwf2 Hs2 Hne) as Hr.
  rewrite py_index_in_range in Hurl by exact Hr.
  assert (Hin : url ∈ urls) by (eapply list_elem_of_lookup_2; exact Hurl).
  pose proof (proj1 (Forall_forall _ _) Hall url Hin) as Hurl_ne.
  destruct url as [|c url]; [congruence|].
  exists c, url. eexists. split; [exact Hget|].
  split; [|split; [|split]].
  - pose proof (get_service_url_wf service_name r2 Hwf2) as H.
    now rewrite Hget in H.
  - cbn. exact Hs1.
  - cbn. rewrite Hb1. apply insert_insert_eq.
  - exists urls. split; [exact Hs|]. cbn. rewrite Hi1. split.
    + apply lookup_insert_eq.
    + intros other Ho. now rewrite lookup_insert_ne by congruence.
Qed.

(** The complete effect of a request that reaches the transport. *)
Lemma proxy_request_reaches_transport
  (client : Request -> TransportOutcome) (clk : Clock)
  (service_name path method : string) (headers : option Headers)
  (body : option Json) (g : Gateway) (cb1 : CircuitBreaker) :
  Registry.wf (registry g) ->
  GatewayOps.urls_nonempty service_name (registry g) ->
  GatewayOps.supported method = true ->
  Breaker.can_attempt (t_attempt clk)
    (fst (Registry.get_circuit_breaker service_name (registry g))) = (true, cb1) ->
  exists (rq : Request) (r3 : ServiceRegistry),
    Registry.wf r3 /\
    services r3 = services (registry g) /\
    circuit_breakers r3 = <[service_name := cb1]> (circuit_breakers (registry g)) /\
    APIGateway.proxy_request client clk service_name path method headers body g =
    match client rq with
    | Responded resp =>
        (GatewayOps.respond clk resp,
         mkGateway
           (APIGateway.update_breaker service_name
              (Breaker.record_success cb1) r3)
           true ((trace g ++ [EvNetCall rq]) ++ [EvRecordSuccess service_name]))
    | RequestError text =>
        (HTTPException 503 (APIGateway.unavailable_detail service_name text),
         mkGateway
           (APIGateway.update_breaker service_name
              (Breaker.record_failure (t_failure clk) cb1) r3)
           true ((trace g ++ [EvNetCall rq]) ++ [EvRecordFailure service_name]))
    | OtherException exn =>
        (Propagated exn, mkGateway r3 true (trace g ++ [EvNetCall rq]))
    end.
Proof.
  intros Hwf Hurls Hsup Hatt.
  destruct (proxy_request_selects clk service_name g cb1 Hwf Hurls Hatt)
    as (c & url & r3 & Hget & Hwf3 & Hs3 & Hb3 & _).
  destruct (build_request_supported method (String c url +:+ path) headers body
              Hsup) as (rq & Hrq & _).
  exists rq, r3. split; [exact Hwf3|]. split; [exact Hs3|]. split; [exact Hb3|].
  unfold APIGateway.proxy_request.
  destruct (Registry.get_circuit_breaker service_name (registry g)) as [cb r1].
  cbn [fst snd] in *. rewrite Hatt. cbn [negb]. rewrite Hget, Hrq.
  destruct (client rq) as [resp|text|exn]; try reflexivity.
  unfold GatewayOps.respond.
  now destruct (if String.eqb (response_text resp) "" then _ else _).
Qed.



Lemma fst_true_pair {B : Type} (p : bool * B) :
  fst p = true -> p = (true, snd p).
Proof. destruct p as [a b]. cbn. now intros ->. Qed.













Lemma urls_nonempty_same (name : string) (r r' : ServiceRegistry) :
  services r' = services r ->
  GatewayOps.urls_nonempty name r -> GatewayOps.urls_nonempty name r'.
Proof. intros Hs (urls & H & Hrest). exists urls. now rewrite Hs. Qed.

(** One failing call on a closed breaker that has counted [i] failures. *)
Lemma failing_call_counts (name : string) (c : ProxyCall) (g : Gateway) (i : Z) :
  Registry.wf (registry g) ->
  GatewayOps.urls_nonempty name (registry g) ->
  GatewayOps.closed_with name i (registry g) ->
  GatewayOps.failing_call name c ->
  let g' := GatewayOps.serve g c in
  Registry.wf (registry g') /\
  GatewayOps.urls_nonempty name (registry g') /\
  exists cb,
    breaker_of name g' = Some cb /\
    failure_count cb = i + 1 /\
    failure_threshold cb = ServiceConfig.FAILURE_THRESHOLD /\
    timeout_seconds cb = ServiceConfig.TIMEOUT_SECONDS /\
    last_failure_time cb = Some (t_failure (pc_clock c)) /\
    state cb = if ServiceConfig.FAILURE_THRESHOLD <=? i + 1 then OPEN else CLOSED.
Proof.
  intros Hwf Hurls Hclosed (Hname & Hsup & Hfail) g'. subst g'.
  unfold GatewayOps.serve, GatewayOps.call. rewrite Hname.
  set (cb := fst (Registry.get_circuit_breaker name (registry g))).
  assert (Hcb : state cb = CLOSED /\ failure_count cb = i /\
                failure_threshold cb = ServiceConfig.FAILURE_THRESHOLD /\
                timeout_seconds cb = ServiceConfig.TIMEOUT_SECONDS).
  { subst cb. unfold Registry.get_circuit_breaker, GatewayOps.closed_with in *.
    destruct (circuit_breakers (registry g) !! name) as [b|]; cbn [fst].
    - exact Hclosed.
    - subst i. now repeat split. }
  destruct Hcb as (Hs & Hc & Ht & Hto).
  assert (Hatt : Breaker.can_attempt (t_attempt (pc_clock c)) cb = (true, cb))
    by (unfold Breaker.can_attempt; now rewrite Hs).
  destruct (proxy_request_reaches_transport (pc_client c) (pc_clock c) name
              (pc_path c) (pc_method c) (pc_headers c) (pc_body c) g cb
              Hwf Hurls Hsup Hatt) as (rq & r3 & Hwf3 & Hs3 & _ & ->).
  destruct (Hfail rq) as [text ->]. cbn [snd registry].
  split; [now apply (wf_same_services r3)|].
  split; [now apply (urls_nonempty_same name (registry g))|].
  eexists. unfold breaker_of. cbn. rewrite lookup_insert_eq.
  split; [reflexivity|]. cbn. rewrite Hc, Ht, Hs. now repeat split.
Qed.

(** Fewer failures than the threshold leave the breaker closed. *)
Lemma failing_calls_below_threshold (name : string) (calls : list ProxyCall) :
  forall (g : Gateway) (i : Z),
    Registry.wf (registry g) ->
    GatewayOps.urls_nonempty name (registry g) ->
    GatewayOps.closed_with name i (registry g) ->
    i + Z.of_nat (length calls) < ServiceConfig.FAILURE_THRESHOLD ->
    Forall (GatewayOps.failing_call name) calls ->
    let g' := GatewayOps.serve_all calls g in
    Registry.wf (registry g') /\
    GatewayOps.urls_nonempty name (registry g') /\
    GatewayOps.closed_with name (i + Z.of_nat (length calls)) (registry g').
Proof.
  induction calls as [|c calls IH]; intros g i Hwf Hurls Hclosed Hlt Hall.
  - cbn [GatewayOps.serve_all fold_left length]. change (Z.of_nat 0) with 0.
    rewrite Z.add_0_r. split; [exact Hwf | split; [exact Hurls | exact Hclosed]].
  - apply Forall_cons in Hall as [Hc Hall]. cbn [length] in Hlt.
    destruct (failing_call_counts name c g i Hwf Hurls Hclosed Hc)
      as (Hwf' & Hurls' & cb & Hb & Hcount & Ht & Hto & _ & Hs).
    cbn [GatewayOps.serve_all fold_left].
    replace (i + Z.of_nat (length (c :: calls)))
      with ((i + 1) + Z.of_nat (length calls)) by (cbn [length]; lia).
    apply IH; try assumption; [|lia].
    unfold GatewayOps.closed_with. unfold breaker_of in Hb. rewrite Hb.
    rewrite (proj2 (Z.leb_gt _ _)) in Hs by lia. now repeat split.
Qed.

(** The refusal of a request by a breaker that does not admit it. *)
Lemma proxy_request_refused
  (client : Request -> TransportOutcome) (clk : Clock)
  (service_name path method : string) (headers : option Headers)
  (body : option Json) (g : Gateway) :
  fst (Breaker.can_attempt (t_attempt clk)
         (fst (Registry.get_circuit_breaker service_name (registry g)))) = false ->
  let res := APIGateway.proxy_request client clk service_name path method
               headers body g in
  fst res = HTTPException 503 (APIGateway.circuit_open_detail service_name) /\
  new_events g (snd res) = [].
Proof.
  intros Hno res. subst res. unfold APIGateway.proxy_request.
  destruct (Registry.get_circuit_breaker service_name (registry g)) as [cb r1].
  cbn [fst] in Hno.
  destruct (Breaker.can_attempt (t_attempt clk) cb) as [ok cb1].
  cbn [fst] in Hno. subst ok. cbn [negb fst snd].
  split; [reflexivity | apply new_events_same].
Qed.

(** X8. As many unreachable calls as the threshold open the circuit.  On a
    gateway whose registry is kept by the class's methods, for a service
    with registered non-empty URLs and no breaker yet: after
    [FAILURE_THRESHOLD] (five) [proxy_request] calls on that service, each
    with a forwarded method and an unreachable backend, the breaker of the
    service is [OPEN] with a failure count of five and the failure time of
    the last call; and every further request on the service, as long as less
    than [TIMEOUT_SECONDS] (thirty) have passed since that failure, raises
    the 503 "circuit open" exception without any transport call. *)
Theorem threshold_failures_open_circuit
  (name : string) (calls : list ProxyCall) (c_last : ProxyCall) (g : Gateway) :
  Registry.wf (registry g) ->
  GatewayOps.urls_nonempty name (registry g) ->
  circuit_breakers (registry g) !! name = None ->
  Z.of_nat (length calls) = ServiceConfig.FAILURE_THRESHOLD ->
  Forall (GatewayOps.failing_call name) calls ->
  last calls = Some c_last ->
  let g' := GatewayOps.serve_all calls g in
  (exists cb,
     breaker_of name g' = Some cb /\ state cb = OPEN /\
     failure_count cb = ServiceConfig.FAILURE_THRESHOLD /\
     last_failure_time cb = Some (t_failure (pc_clock c_last))) /\
  (forall client clk path method headers body,
     (t_attempt clk - t_failure (pc_clock c_last)
        < inject_Z ServiceConfig.TIMEOUT_SECONDS)%Q ->
     let res := APIGateway.proxy_request client clk name path method headers
                  body g' in
     fst res = HTTPException 503 (APIGateway.circuit_open_detail name) /\
     new_events g' (snd res) = []).
Proof.
  intros Hwf Hurls Hnone Hlen Hall Hlast g'.
  destruct calls as [|c0 cs] using rev_ind; [discriminate Hlast|]. clear IHcs.
  rewrite last_snoc in Hlast. injection Hlast as ->.
  rewrite length_app in Hlen. cbn [length] in Hlen.
  apply Forall_app in Hall as [Hinit Hlastc].
  apply Forall_cons in Hlastc as [Hlastc _].
  assert (H0 : GatewayOps.closed_with name 0 (registry g))
    by (unfold GatewayOps.closed_with; now rewrite Hnone).
  destruct (failing_calls_below_threshold name cs g 0 Hwf Hurls H0)
    as (Hwf1 & Hurls1 & Hclosed1); [lia | exact Hinit |].
  destruct (failing_call_counts name c_last (GatewayOps.serve_all cs g) _
              Hwf1 Hurls1 Hclosed1 Hlastc)
    as (_ & _ & cb & Hb & Hcount & Ht & Hto & Hl & Hs).
  assert (Hg' : g' = GatewayOps.serve (GatewayOps.serve_all cs g) c_last)
    by (subst g'; unfold GatewayOps.serve_all; now rewrite fold_left_app).
  rewrite <- Hg' in Hb.
  rewrite (proj2 (Z.leb_le _ _)) in Hs by lia.
  split.
  - exists cb. split; [exact Hb|]. split; [exact Hs|]. split; [lia | exact Hl].
  - intros client clk path method headers body Hearly.
    apply proxy_request_refused.
    unfold Registry.get_circuit_breaker. unfold breaker_of in Hb. rewrite Hb.
    cbn [fst]. unfold Breaker.can_attempt. rewrite Hs, Hl, Hto.
    now rewrite Qle_bool_false.
Qed.

Lemma threshold_failures_open_circuit_witness :
  let clk := {| t_attempt := 10; t_start := 10; t_end := 11; t_failure := 11 |} in
  let c := mkProxyCall client_down clk "orders" "/orders" "POST" None None in
  let calls := [c; c; c; c; c] in
  let g' := GatewayOps.serve_all calls gateway_init in
  Registry.wf (registry gateway_init) /\
  circuit_breakers (registry gateway_init) !! "orders" = None /\
  Z.of_nat (length calls) = ServiceConfig.FAILURE_THRESHOLD /\
  fst (APIGateway.proxy_request client_500 clk "orders" "/orders" "GET" None
         None g') =
  HTTPException 503 "Service orders is currently unavailable (circuit open)".
Proof.
  intros clk c calls g'.
  assert (Hurls : GatewayOps.urls_nonempty "orders" (registry gateway_init)).
  { exists ["http://localhost:8003"%string]. split; [reflexivity|].
    split; [discriminate|]. repeat constructor. discriminate. }
  assert (Hnone : circuit_breakers (registry gateway_init) !! "orders" = None)
    by reflexivity.
  assert (Hlen : Z.of_nat (length calls) = ServiceConfig.FAILURE_THRESHOLD)
    by reflexivity.
  assert (Hc : GatewayOps.failing_call "orders" c).
  { split; [reflexivity|]. split; [reflexivity|].
    intros rq. eexists. reflexivity. }
  assert (Hall : Forall (GatewayOps.failing_call "orders") calls)
    by (repeat (apply Forall_cons; split; [exact Hc|]); apply Forall_nil_2).
  assert (Hlast : last calls = Some c) by reflexivity.
  split; [exact init_wf|]. split; [exact Hnone|]. split; [exact Hlen|].
  destruct (threshold_failures_open_circuit "orders" calls c gateway_init
              init_wf Hurls Hnone Hlen Hall Hlast) as [_ Hrefuse].
  refine (proj1 (Hrefuse client_500 clk "/orders" "GET" None None _)).
  reflexivity.
Defined.

(** X9. An unknown service is not a failure.  When the name has no list of
    URLs, or an empty one, and the breaker admits the attempt (a name never
    seen gets a new, closed breaker), [proxy_request] raises the 503
    "not found" exception; no transport call is made, nothing is recorded on
    the breaker (it is stored as [can_attempt] left it, with the same
    failure count), and the service lists, the round-robin indices and the
    HTTP client are those from before the call. *)
Theorem unknown_service_is_not_a_failure
  (client : Request -> TransportOutcome) (clk : Clock)
  (service_name path method : string) (headers : option Headers)
  (body : option Json) (g : Gateway) :
  services (registry g) !! service_name = None \/
  services (registry g) !! service_name = Some [] ->
  let probe := Breaker.can_attempt (t_attempt clk)
                 (fst (Registry.get_circuit_breaker service_name (registry g))) in
  fst probe = true ->
  let res := APIGateway.proxy_request client clk service_name path method
               headers body g in
  fst res = HTTPException 503 (APIGateway.not_found_detail service_name) /\
  new_events g (snd res) = [] /\
  breaker_of service_name (snd res) = Some (snd probe) /\
  failure_count (snd probe) =
    failure_count (fst (Registry.get_circuit_breaker service_name (registry g))) /\
  services (registry (snd res)) = services (registry g) /\
  current_index (registry (snd res)) = current_index (registry g) /\
  http_client (snd res) = http_client g.
Proof.
  intros Hunknown probe Hok res. subst res probe.
  pose proof (can_attempt_count (t_attempt clk)
                (fst (Registry.get_circuit_breaker service_name (registry g))))
    as Hcount.
  unfold APIGateway.proxy_request.
  pose proof (get_circuit_breaker_frame service_name (registry g)) as [Hs Hi].
  destruct (Registry.get_circuit_breaker service_name (registry g)) as [cb r1].
  cbn [fst snd] in *.
  destruct (Breaker.can_attempt (t_attempt clk) cb) as [ok cb1].
  cbn [fst snd] in *. subst ok. cbn [negb].
  set (r2 := APIGateway.update_breaker service_name cb1 r1).
  assert (Hnone : Registry.get_service_url service_name r2 = (Ok None, r2)).
  { apply get_service_url_none. subst r2. cbn. now rewrite Hs. }
  rewrite Hnone. cbn [fst snd registry http_client].
  split; [reflexivity|]. split; [apply new_events_same|].
  split; [unfold breaker_of; cbn; apply lookup_insert_eq|].
  split; [exact Hcount|]. now repeat split.
Qed.

Lemma unknown_service_is_not_a_failure_witness :
  let clk := {| t_attempt := 10; t_start := 10; t_end := 11; t_failure := 11 |} in
  let res := APIGateway.proxy_request client_down clk "payments" "/pay" "POST"
               None None gateway_init in
  (services (registry gateway_init) !! "payments" = None \/
   services (registry gateway_init) !! "payments" = Some []) /\
  fst res = HTTPException 503 "Service payments not found" /\
  new_events gateway_init (snd res) = [].
Proof.
  intros clk res.
  assert (H : services (registry gateway_init) !! "payments" = None \/
              services (registry gateway_init) !! "payments" = Some [])
    by (left; reflexivity).
  split; [exact H|].
  destruct (unknown_service_is_not_a_failure client_down clk "payments" "/pay"
              "POST" None None gateway_init H eq_refl) as (Hout & Hev & _).
  split; [exact Hout | exact Hev].
Defined.

(** X10. A method that is not forwarded.  For a service with registered
    non-empty URLs whose breaker admits the attempt, a method other than
    GET, POST, PUT and DELETE makes [proxy_request] raise the [ValueError]
    (not an [HTTPException]); the transport is not called and neither a
    success nor a failure is recorded, but the HTTP client has been created
    and one round-robin slot has been used: the stored index of the service
    has advanced by one, modulo the number of instances. *)
Theorem unsupported_method_uses_a_slot
  (client : Request -> TransportOutcome) (clk : Clock)
  (service_name path method : string) (headers : option Headers)
  (body : option Json) (g : Gateway) :
  Registry.wf (registry g) ->
  GatewayOps.urls_nonempty service_name (registry g) ->
  GatewayOps.supported method = false ->
  let probe := Breaker.can_attempt (t_attempt clk)
                 (fst (Registry.get_circuit_breaker service_name (registry g))) in
  fst probe = true ->
  let res := APIGateway.proxy_request client clk service_name path method
               headers body g in
  fst res = Propagated ("Unsupported method: " +:+ method) /\
  new_events g (snd res) = [] /\
  breaker_of service_name (snd res) = Some (snd probe) /\
  http_client (snd res) = true /\
  exists urls,
    services (registry g) !! service_name = Some urls /\
    current_index (registry (snd res)) !! service_name =
      Some ((default 0 (current_index (registry g) !! service_name) + 1)
            mod Z.of_nat (length urls)).
Proof.
  intros Hwf Hurls Hsup probe Hok res. subst res.
  apply fst_true_pair in Hok. fold probe in Hok.
  destruct (proxy_request_selects clk service_name g (snd probe) Hwf Hurls Hok)
    as (c & url & r3 & Hget & _ & _ & Hb3 & urls & Hs & Hix & _).
  unfold APIGateway.proxy_request.
  destruct (Registry.get_circuit_breaker service_name (registry g)) as [cb r1].
  cbn [fst snd] in *. subst probe. rewrite Hok in *. cbn [negb snd] in *.
  rewrite Hget.
  rewrite (build_request_unsupported method _ headers body Hsup).
  cbn [fst snd registry http_client].
  split; [reflexivity|]. split; [apply new_events_same|].
  split; [unfold breaker_of; cbn; rewrite Hb3; apply lookup_insert_eq|].
  split; [reflexivity|]. exists urls. split; [exact Hs | exact Hix].
Qed.

Lemma unsupported_method_uses_a_slot_witness :
  let clk := {| t_attempt := 10; t_start := 10; t_end := 11; t_failure := 11 |} in
  let res := APIGateway.proxy_request client_500 clk "users" "/users" "PATCH"
               None None gateway_init in
  Registry.wf (registry gateway_init) /\
  GatewayOps.supported "PATCH" = false /\
  fst res = Propagated "Unsupported method: PATCH" /\
  new_events gateway_init (snd res) = [].
Proof.
  intros clk res.
  assert (Hurls : GatewayOps.urls_nonempty "users" (registry gateway_init)).
  { exists ["http://localhost:8001"%string]. split; [reflexivity|].
    split; [discriminate|]. repeat constructor. discriminate. }
  assert (Hsup : GatewayOps.supported "PATCH" = false) by reflexivity.
  split; [exact init_wf|]. split; [exact Hsup|].
  destruct (unsupported_method_uses_a_slot client_500 clk "users" "/users"
              "PATCH" None None gateway_init init_wf Hurls Hsup eq_refl)
    as (Hout & Hev & _).
  split; [exact Hout | exact Hev].
Defined.

(** ** The gateway application: health report and authorisation *)

Lemma health_step_result (name : string)
  (acc : list (string * ServiceHealth)) (r : ServiceRegistry) :
  GatewayApp.health_step (acc, r) name =
  (GatewayApp.dict_set name
     {| h_status := state (fst (Registry.get_circuit_breaker name r));
        h_healthy :=
          negb (CircuitState_eqb
                  (state (fst (Registry.get_circuit_breaker name r))) OPEN) |}
     acc,
   snd (Registry.get_circuit_breaker name r)).
Proof.
  unfold GatewayApp.health_step.
  now destruct (Registry.get_circuit_breaker name r).
Qed.

(** Looking a breaker up does not disturb the breakers of other names, nor
    one that exists. *)
Lemma get_circuit_breaker_other (name other : string) (r : ServiceRegistry) :
  other <> name ->
  fst (Registry.get_circuit_breaker other
         (snd (Registry.get_circuit_breaker name r))) =
  fst (Registry.get_circuit_breaker other r).
Proof.
  intros Hne. unfold Registry.get_circuit_breaker at 1 3.
  rewrite get_circuit_breaker_breakers.
  rewrite lookup_insert_ne by congruence.
  now destruct (circuit_breakers r !! other).
Qed.

Lemma get_circuit_breaker_keeps (name other : string) (cb : CircuitBreaker)
  (r : ServiceRegistry) :
  circuit_breakers r !! other = Some cb ->
  circuit_breakers (snd (Registry.get_circuit_breaker name r)) !! other = Some cb.
Proof.
  intros H. unfold Registry.get_circuit_breaker.
  destruct (circuit_breakers r !! name) as [b|] eqn:E; cbn [snd]; [exact H|].
  cbn. rewrite lookup_insert_ne; [exact H | congruence].
Qed.

Lemma eqb_OPEN (s : CircuitState) :
  CircuitState_eqb s OPEN = true <-> s = OPEN.
Proof. destruct s; cbn; split; congruence. Qed.

(** X11. The health report.  [health_check] lists the three services
    users, products and orders, each with the state of its breaker (a
    breaker that does not exist yet is created, closed) and [healthy] unless
    that state is [OPEN]; the overall status is "degraded" exactly when at
    least one of the three breakers is [OPEN], and "healthy" otherwise, a
    half-open breaker counting as healthy.  The call leaves the service
    lists, the indices and every existing breaker as they were: it never
    probes a breaker, so an elapsed cool-down does not show until a request
    comes. *)
Theorem health_check_reports_open_breakers (r : ServiceRegistry) :
  let res := GatewayApp.health_check r in
  let st name := state (fst (Registry.get_circuit_breaker name r)) in
  let entry name :=
    (name, {| h_status := st name;
              h_healthy := negb (CircuitState_eqb (st name) OPEN) |}) in
  hr_services (fst res) = [entry "users"; entry "products"; entry "orders"]%string /\
  (hr_overall_status (fst res) = "degraded"%string <->
   st "users"%string = OPEN \/ st "products"%string = OPEN \/
   st "orders"%string = OPEN) /\
  (hr_overall_status (fst res) = "healthy"%string \/
   hr_overall_status (fst res) = "degraded"%string) /\
  services (snd res) = services r /\
  current_index (snd res) = current_index r /\
  (forall name cb, circuit_breakers r !! name = Some cb ->
                   circuit_breakers (snd res) !! name = Some cb).
Proof.
  intros res st entry. subst res. unfold GatewayApp.health_check.
  cbn [fold_left]. rewrite !health_step_result.
  set (r1 := snd (Registry.get_circuit_breaker "users" r)).
  set (r2 := snd (Registry.get_circuit_breaker "products" r1)).
  set (r3 := snd (Registry.get_circuit_breaker "orders" r2)).
  assert (H2 : fst (Registry.get_circuit_breaker "products" r1) =
               fst (Registry.get_circuit_breaker "products" r))
    by (apply get_circuit_breaker_other; discriminate).
  assert (H3 : fst (Registry.get_circuit_breaker "orders" r2) =
               fst (Registry.get_circuit_breaker "orders" r)).
  { subst r2. rewrite get_circuit_breaker_other by discriminate.
    apply get_circuit_breaker_other. discriminate. }
  rewrite H2, H3. cbn [GatewayApp.dict_set String.eqb Ascii.eqb Bool.eqb].
  fold (st "users"%string) (st "products"%string) (st "orders"%string).
  cbn [fst snd hr_services hr_overall_status forallb h_healthy].
  split; [reflexivity|]. split; [|split; [|split; [|split]]].
  - rewrite <- !eqb_OPEN.
    destruct (CircuitState_eqb (st "users"%string) OPEN),
             (CircuitState_eqb (st "products"%string) OPEN),
             (CircuitState_eqb (st "orders"%string) OPEN); cbn;
      split; intros H; try discriminate H; try reflexivity; try tauto;
      destruct H as [H|[H|H]]; discriminate H.
  - destruct (negb _ && _); [now left | now right].
  - subst r3 r2 r1.
    now rewrite !(proj1 (get_circuit_breaker_frame _ _)).
  - subst r3 r2 r1.
    now rewrite !(proj2 (get_circuit_breaker_frame _ _)).
  - intros name cb H. subst r3 r2 r1.
    now do 3 apply get_circuit_breaker_keeps.
Qed.

Lemma api_keys_lookup (key : string) (user : ApiUser) :
  GatewayApp.API_KEYS !! key = Some user ->
  (key = "user_key_123"%string /\ role user = "user"%string) \/
  (key = "admin_key_456"%string /\ role user = "admin"%string).
Proof.
  unfold GatewayApp.API_KEYS. intros H.
  apply lookup_insert_Some in H as [[<- <-]|[_ H]]; [left; now split|].
  apply lookup_insert_Some in H as [[<- <-]|[_ H]]; [right; now split|].
  now rewrite lookup_empty in H.
Qed.

(** X12. Only the admin key creates users.  Whatever the value of the
    [X-API-Key] header, absent, empty, unknown or the key of a plain user,
    as long as it is not the key whose entry in [API_KEYS] has the role
    admin, [POST /api/users] ends with a 401 (no or invalid key) or a 403
    (not an admin), and the gateway is left exactly as it was: no breaker is
    created or consulted, no instance is selected and the backend is not
    called. *)
Theorem only_admin_key_creates_users
  (client : Request -> TransportOutcome) (clk : Clock)
  (x_api_key : option string) (user_data : Json) (g : Gateway) :
  x_api_key <> Some "admin_key_456"%string ->
  let res := GatewayApp.post_api_users client clk x_api_key user_data g in
  snd res = g /\
  (fst res = Fails 401 "API key required" \/
   fst res = Fails 401 "Invalid API key" \/
   fst res = Fails 403 "Admin access required").
Proof.
  intros Hkey res. subst res.
  unfold GatewayApp.post_api_users, GatewayApp.verify_api_key.
  destruct x_api_key as [[|c key]|]; [split; [reflexivity | now left] | |
                                      split; [reflexivity | now left]].
  destruct (GatewayApp.API_KEYS !! String c key) as [user|] eqn:E;
    [|split; [reflexivity | right; now left]].
  destruct (api_keys_lookup _ _ E) as [[_ Hrole]|[Hk _]]; [|congruence].
  unfold GatewayApp.create_user. rewrite Hrole. cbn.
  split; [reflexivity | right; now right].
Qed.

Lemma only_admin_key_creates_users_witness :
  let clk := {| t_attempt := 10; t_start := 10; t_end := 11; t_failure := 11 |} in
  let res := GatewayApp.post_api_users client_500 clk (Some "user_key_123"%string)
               "{}"%string gateway_init in
  Some "user_key_123"%string <> Some "admin_key_456"%string /\
  snd res = gateway_init /\ fst res = Fails 403 "Admin access required".
Proof.
  intros clk res.
  assert (H : Some "user_key_123"%string <> Some "admin_key_456"%string)
    by discriminate.
  split; [exact H|].
  destruct (only_admin_key_creates_users client_500 clk
              (Some "user_key_123"%string) "{}"%string gateway_init H)
    as [Hg _].
  split; [exact Hg | reflexivity].
Defined.

(** ** Token bucket: waiting time and bursts *)


(** A request on a key whose bucket is stored. *)
Lemma allow_request_stored (t_create t_refill : Q) (key : string)
  (tokens_needed : Z) (L : TokenBucketLimiter) (b : Bucket) :
  buckets L !! key = Some b ->
  fst (TokenBucket.allow_request t_create t_refill key tokens_needed L) =
  Qle_bool (inject_Z tokens_needed)
    (Qmin (inject_Z (capacity L))
          (tokens b + (t_refill - last_update b) * refill_rate L)).
Proof.
  intros Hb. unfold TokenBucket.allow_request, TokenBucket._get_bucket.
  rewrite Hb. cbn [TokenBucket._refill_tokens tokens].
  now destruct (Qle_bool _ _).
Qed.



(** X14. A limiter that never refills.  With a refill rate of zero,
    [get_wait_time] on a key whose stored bucket holds less than one token
    raises [ZeroDivisionError]: the bucket stays as it is through the
    refill, and the division by the rate fails.  (With at least one token
    the method returns zero.) *)
Theorem get_wait_time_zero_rate_raises
  (L : TokenBucketLimiter) (key : string) (t_create t_refill : Q) (b : Bucket) :
  (refill_rate L == 0)%Q ->
  buckets L !! key = Some b ->
  (tokens b < 1)%Q ->
  fst (TokenBucketOps.get_wait_time t_create t_refill key L) =
  Raise "ZeroDivisionError".
Proof.
  intros Hrate Hb Hlow.
  unfold TokenBucketOps.get_wait_time, TokenBucket._get_bucket. rewrite Hb.
  cbn [capacity refill_rate TokenBucket.set_buckets].
  set (b1 := TokenBucket._refill_tokens _ _ _ _).
  assert (Hb1 : (tokens b1 < 1)%Q).
  { subst b1. cbn [TokenBucket._refill_tokens tokens].
    apply Qle_lt_trans
      with (tokens b + (t_refill - last_update b) * refill_rate L)%Q;
      [apply Q.le_min_r|].
    rewrite Hrate. lra. }
  rewrite (Qle_bool_false 1 (tokens b1)) by exact Hb1.
  now rewrite (proj2 (Qeq_bool_iff _ _) Hrate).
Qed.

Lemma get_wait_time_zero_rate_raises_witness :
  let L := snd (TokenBucket.allow_request 0 0 "k" 1 (TokenBucket.init 1 0)) in
  (refill_rate L == 0)%Q /\
  buckets L !! "k" = Some {| tokens := 1 - 1; last_update := 0 |} /\
  fst (TokenBucketOps.get_wait_time 5 5 "k" L) = Raise "ZeroDivisionError".
Proof.
  intros L.
  assert (H1 : (refill_rate L == 0)%Q) by reflexivity.
  assert (H2 : buckets L !! "k" = Some {| tokens := 1 - 1; last_update := 0 |})
    by reflexivity.
  split; [exact H1|]. split; [exact H2|].
  apply (get_wait_time_zero_rate_raises L "k" 5 5 _ H1 H2). reflexivity.
Defined.

Lemma Qle_bool_ext (a a' b b' : Q) :
  (a == a')%Q -> (b == b')%Q -> Qle_bool a b = Qle_bool a' b'.
Proof.
  intros Ha Hb.
  destruct (Qle_bool a b) eqn:E1, (Qle_bool a' b') eqn:E2; try reflexivity.
  - apply Qle_bool_iff in E1. rewrite Ha, Hb in E1.
    apply Qle_bool_iff in E1. congruence.
  - apply Qle_bool_iff in E2. rewrite <- Ha, <- Hb in E2.
    apply Qle_bool_iff in E2. congruence.
Qed.

Lemma Qle_bool_inject (a b : Z) : Qle_bool (inject_Z a) (inject_Z b) = (a <=? b).
Proof.
  destruct (Z.leb_spec a b) as [H|H].
  - apply Qle_bool_true. now rewrite <- Zle_Qle.
  - apply Qle_bool_false. now rewrite <- Zlt_Qlt.
Qed.

(** Requests of one cost at one instant, on a stored bucket that holds
    [held] tokens and was last updated at that instant. *)
Lemma immediate_answers (key : string) (cost : Z) (t : Q) (n : nat) :
  0 < cost ->
  forall (L : TokenBucketLimiter) (b : Bucket) (held : Z),
    buckets L !! key = Some b ->
    (tokens b == inject_Z held)%Q -> held <= capacity L ->
    (last_update b == t)%Q ->
    answers (TokenBucketOps.immediate key cost t n) L =
    map (fun j => (Z.of_nat j + 1) * cost <=? held) (seq 0 n).
Proof.
  intros Hcost. induction n as [|n IH]; intros L b held Hb Htok Hheld Hlu;
    [reflexivity|].
  cbn [TokenBucketOps.immediate repeat answers TokenBucket.c_create
       TokenBucket.c_refill TokenBucket.c_key TokenBucket.c_tokens_needed].
  pose proof (allow_request_stored t t key cost L b Hb) as Hanswer.
  assert (Hrefill : (Qmin (inject_Z (capacity L))
                       (tokens b + (t - last_update b) * refill_rate L)
                     == inject_Z held)%Q).
  { assert (Hsum : (tokens b + (t - last_update b) * refill_rate L
                     == inject_Z held)%Q) by (rewrite Hlu, Htok; ring).
    rewrite Q.min_r; [exact Hsum|]. rewrite Hsum. now rewrite <- Zle_Qle. }
  rewrite (Qle_bool_ext _ (inject_Z cost) _ (inject_Z held)) in Hanswer
    by (reflexivity || exact Hrefill).
  rewrite Qle_bool_inject in Hanswer.
  unfold TokenBucket.allow_request, TokenBucket._get_bucket in *.
  rewrite Hb in *. cbn [TokenBucket._refill_tokens tokens last_update] in *.
  destruct (Qle_bool (inject_Z cost) _) eqn:Hdebit; cbn [fst] in Hanswer.
  - symmetry in Hanswer. apply Z.leb_le in Hanswer.
    fold (TokenBucketOps.immediate key cost t n).
    erewrite (IH _ _ (held - cost)); cycle 1.
    + cbn. apply lookup_insert_eq.
    + cbn [tokens]. rewrite Hrefill. unfold Z.sub.
      rewrite inject_Z_plus, inject_Z_opp. reflexivity.
    + cbn. lia.
    + reflexivity.
    + cbn [seq map]. f_equal.
      * symmetry. apply Z.leb_le. cbn. lia.
      * rewrite <- seq_shift, map_map. apply map_ext. intros j.
        destruct (Z.leb_spec ((Z.of_nat j + 1) * cost) (held - cost)),
                 (Z.leb_spec ((Z.of_nat (S j) + 1) * cost) held);
          try reflexivity; lia.
  - symmetry in Hanswer. apply Z.leb_gt in Hanswer.
    fold (TokenBucketOps.immediate key cost t n).
    erewrite (IH _ _ held); cycle 1.
    + cbn. apply lookup_insert_eq.
    + cbn [tokens]. exact Hrefill.
    + cbn. exact Hheld.
    + reflexivity.
    + cbn [seq map]. f_equal.
      * symmetry. apply Z.leb_gt. cbn. lia.
      * rewrite <- seq_shift, map_map. apply map_ext. intros j.
        destruct (Z.leb_spec ((Z.of_nat j + 1) * cost) held),
                 (Z.leb_spec ((Z.of_nat (S j) + 1) * cost) held);
          try reflexivity; nia.
Qed.

(** X15. The burst of a new client.  On a key never seen before, of [n]
    requests of the same positive cost made at one instant, the [j]-th
    (counting from zero) is admitted exactly when [(j + 1) * cost] does not
    exceed the capacity: a new client may spend the full capacity at once,
    and is refused from then on.  No condition on the refill rate or on the
    sign of the capacity is needed. *)
Theorem burst_is_capacity_over_cost
  (L : TokenBucketLimiter) (key : string) (cost : Z) (t : Q) (n : nat) :
  0 < cost ->
  buckets L !! key = None ->
  answers (TokenBucketOps.immediate key cost t n) L =
  map (fun j => (Z.of_nat j + 1) * cost <=? capacity L) (seq 0 n).
Proof.
  intros Hcost Hfresh.
  set (b := {| tokens := inject_Z (capacity L); last_update := t |}).
  set (L1 := TokenBucket.set_buckets (<[key := b]> (buckets L)) L).
  assert (Hsame : forall calls,
            Forall (fun c => TokenBucket.c_key c = key /\
                             TokenBucket.c_create c = t) calls ->
            answers calls L = answers calls L1).
  { intros [|c calls] Hall; [reflexivity|].
    apply Forall_cons in Hall as [[Hk Ht] _].
    cbn [answers]. rewrite Hk, Ht.
    unfold TokenBucket.allow_request, TokenBucket._get_bucket.
    rewrite Hfresh. subst L1. cbn [buckets TokenBucket.set_buckets].
    rewrite lookup_insert_eq. fold b.
    cbn [capacity refill_rate TokenBucket.set_buckets buckets].
    rewrite !insert_insert_eq. reflexivity. }
  rewrite Hsame.
  - apply (immediate_answers key cost t n Hcost L1 b (capacity L)).
    + apply lookup_insert_eq.
    + reflexivity.
    + cbn. lia.
    + reflexivity.
  - unfold TokenBucketOps.immediate. apply Forall_forall. intros c Hc.
    apply list_elem_of_In, repeat_spec in Hc. subst c. now split.
Qed.

Lemma burst_is_capacity_over_cost_witness :
  0 < 2 /\ buckets (TokenBucket.init 5 10) !! "k" = None /\
  answers (TokenBucketOps.immediate "k" 2 0 4) (TokenBucket.init 5 10) =
  [true; true; false; false].
Proof.
  assert (H1 : 0 < 2) by lia.
  assert (H2 : buckets (TokenBucket.init 5 10) !! "k" = None) by reflexivity.
  split; [exact H1|]. split; [exact H2|].
  rewrite (burst_is_capacity_over_cost (TokenBucket.init 5 10) "k" 2 0 4 H1 H2).
  reflexivity.
Defined.

(** ** Sliding window: what the deque holds and whom it admits *)

(** [allow_request] in terms of the deque stored for the key. *)
Lemma sliding_allow_request_spec (t_cleanup t_append : Q) (key : string)
  (L : SlidingWindowLimiter) :
  let q1 := SlidingWindow.popleft_older
              (t_cleanup - inject_Z (sw_window_seconds L))
              (SlidingWindowOps.stored key L) in
  let a := Z.of_nat (length q1) <? sw_max_requests L in
  SlidingWindow.allow_request t_cleanup t_append key L =
  (a, SlidingWindow.set_requests
        (<[key := if a then q1 ++ [t_append] else q1]> (requests L)) L).
Proof.
  intros q1 a. subst q1 a.
  unfold SlidingWindow.allow_request, SlidingWindow._cleanup_old_requests,
    SlidingWindow.getitem, SlidingWindowOps.stored.
  destruct (requests L !! key) as [q|] eqn:E;
    cbn [default from_option id requests sw_window_seconds sw_max_requests
         SlidingWindow.set_requests];
    rewrite ?lookup_insert_eq;
    cbn [requests sw_window_seconds sw_max_requests SlidingWindow.set_requests];
    destruct (Z.of_nat _ <? sw_max_requests L);
    unfold SlidingWindow.set_requests; cbn; now rewrite ?insert_insert_eq.
Qed.

Lemma sliding_remaining_spec (now : Q) (key : string) (L : SlidingWindowLimiter) :
  let q1 := SlidingWindow.popleft_older
              (now - inject_Z (sw_window_seconds L))
              (SlidingWindowOps.stored key L) in
  SlidingWindow.get_remaining_requests now key L =
  (Z.max 0 (sw_max_requests L - Z.of_nat (length q1)),
   SlidingWindow.set_requests (<[key := q1]> (requests L)) L).
Proof.
  intros q1. subst q1.
  unfold SlidingWindow.get_remaining_requests,
    SlidingWindow._cleanup_old_requests, SlidingWindow.getitem,
    SlidingWindowOps.stored.
  destruct (requests L !! key) as [q|] eqn:E;
    cbn [default from_option id requests sw_window_seconds sw_max_requests
         SlidingWindow.set_requests];
    rewrite ?lookup_insert_eq;
    cbn [requests sw_window_seconds sw_max_requests SlidingWindow.set_requests];
    unfold SlidingWindow.set_requests; cbn; now rewrite ?insert_insert_eq.
Qed.

Lemma popleft_older_length (cutoff : Q) (q : list Q) :
  (length (SlidingWindow.popleft_older cutoff q) <= length q)%nat.
Proof.
  induction q as [|t q IH]; cbn; [lia|].
  destruct (Qlt_bool t cutoff); cbn; lia.
Qed.

Lemma popleft_older_idempotent (cutoff : Q) (q : list Q) :
  SlidingWindow.popleft_older cutoff (SlidingWindow.popleft_older cutoff q) =
  SlidingWindow.popleft_older cutoff q.
Proof.
  induction q as [|t q IH]; cbn; [reflexivity|].
  destruct (Qlt_bool t cutoff) eqn:E; [exact IH|]. cbn. now rewrite E.
Qed.

(** X16. The deque of a key never holds more than [max_requests]
    timestamps: after any sequence of [allow_request] calls on a new
    limiter, whatever the keys and the clock readings, every stored deque
    has at most [max(0, max_requests)] entries. *)
Theorem sliding_window_deque_is_bounded
  (max_requests window_seconds : Z) (calls : list SlidingWindowOps.Call)
  (key : string) (q : list Q) :
  requests (SlidingWindowOps.run calls
              (SlidingWindow.init max_requests window_seconds)) !! key = Some q ->
  Z.of_nat (length q) <= Z.max 0 max_requests.
Proof.
  set (bounded := fun L : SlidingWindowLimiter =>
         sw_max_requests L = max_requests /\
         forall k d, requests L !! k = Some d ->
                     Z.of_nat (length d) <= Z.max 0 max_requests).
  assert (Hstep : forall L c, bounded L ->
                    bounded (snd (SlidingWindowOps.call L c))).
  { intros L c [Hmax Hb]. unfold SlidingWindowOps.call.
    rewrite sliding_allow_request_spec. cbn [snd]. split; [exact Hmax|].
    intros k d Hd. cbn in Hd.
    apply lookup_insert_Some in Hd as [[_ <-]|[_ Hd]]; [|now apply (Hb k)].
    set (q1 := SlidingWindow.popleft_older _ _).
    destruct (Z.ltb_spec (Z.of_nat (length q1)) (sw_max_requests L)) as [H|H].
    - rewrite length_app. cbn [length]. lia.
    - subst q1. pose proof (popleft_older_length
        (SlidingWindowOps.c_cleanup c - inject_Z (sw_window_seconds L))
        (SlidingWindowOps.stored (SlidingWindowOps.c_key c) L)) as Hlen.
      unfold SlidingWindowOps.stored in *.
      destruct (requests L !! SlidingWindowOps.c_key c) as [d0|] eqn:E;
        cbn [default from_option id] in *.
      + pose proof (Hb _ _ E). lia.
      + cbn [SlidingWindow.popleft_older length]. lia. }
  assert (Hrun : forall L, bounded L -> bounded (SlidingWindowOps.run calls L)).
  { induction calls as [|c calls IH]; intros L HL; [exact HL|].
    cbn. apply IH. now apply Hstep. }
  intros Hq.
  destruct (Hrun (SlidingWindow.init max_requests window_seconds)) as [_ Hb].
  - split; [reflexivity|]. intros k d H. cbn in H. now rewrite lookup_empty in H.
  - now apply (Hb key).
Qed.

Lemma sliding_window_deque_is_bounded_witness :
  let calls := [SlidingWindowOps.mkCall "k" 0 0; SlidingWindowOps.mkCall "k" 1 1;
                SlidingWindowOps.mkCall "k" 2 2] in
  requests (SlidingWindowOps.run calls (SlidingWindow.init 2 60)) !! "k"
    = Some [0%Q; 1%Q] /\
  Z.of_nat (length [0%Q; 1%Q]) <= Z.max 0 2.
Proof.
  intros calls.
  assert (H : requests (SlidingWindowOps.run calls (SlidingWindow.init 2 60))
                !! "k" = Some [0%Q; 1%Q]) by reflexivity.
  split; [exact H|].
  exact (sliding_window_deque_is_bounded 2 60 calls "k" _ H).
Defined.

(** X17. The remaining quota and the next answer agree.  At one clock
    reading, [get_remaining_requests] is positive exactly when
    [allow_request] would admit the request; it is never negative; and
    asking for it first does not change the answer of the request that
    follows. *)
Theorem sliding_remaining_agrees_with_admission
  (L : SlidingWindowLimiter) (key : string) (now t_append : Q) :
  let remaining := SlidingWindow.get_remaining_requests now key L in
  (0 < fst remaining <->
   fst (SlidingWindow.allow_request now t_append key L) = true) /\
  0 <= fst remaining /\
  fst (SlidingWindow.allow_request now t_append key (snd remaining)) =
  fst (SlidingWindow.allow_request now t_append key L).
Proof.
  intros remaining. subst remaining.
  rewrite sliding_remaining_spec, !sliding_allow_request_spec. cbn [fst snd].
  split; [|split; [lia|]].
  - rewrite Z.ltb_lt. lia.
  - cbn [sw_window_seconds sw_max_requests SlidingWindow.set_requests].
    unfold SlidingWindowOps.stored at 1. cbn [requests SlidingWindow.set_requests].
    rewrite lookup_insert_eq. cbn [default from_option id].
    now rewrite popleft_older_idempotent.
Qed.

(** X18. Read right after the eviction, the reset time is the specified
    one: when [get_remaining_requests] has just run at the same clock
    reading, [get_reset_time] returns the time until the oldest surviving
    timestamp leaves the window (zero when none survives). *)
Theorem reset_time_after_eviction_is_specified
  (L : SlidingWindowLimiter) (key : string) (now : Q) :
  fst (SlidingWindow.get_reset_time now key
         (snd (SlidingWindow.get_remaining_requests now key L))) =
  SlidingWindow.get_reset_time_spec now key L.
Proof.
  rewrite sliding_remaining_spec. cbn [snd].
  unfold SlidingWindow.get_reset_time, SlidingWindow.getitem,
    SlidingWindow.get_reset_time_spec.
  cbn [requests SlidingWindow.set_requests sw_window_seconds].
  rewrite lookup_insert_eq. unfold SlidingWindowOps.stored.
  now destruct (SlidingWindow.popleft_older _ _).
Qed.

Lemma not_older_all (cutoff : Q) (l : list Q) :
  Forall (fun x => (cutoff <= x)%Q) l -> SlidingWindowOps.not_older cutoff l = l.
Proof.
  induction 1 as [|x l Hx _ IH]; [reflexivity|].
  cbn. rewrite (Qle_bool_true _ _ Hx). now f_equal.
Qed.

Lemma not_older_none (cutoff : Q) (l : list Q) :
  Forall (fun x => (x < cutoff)%Q) l -> SlidingWindowOps.not_older cutoff l = [].
Proof.
  induction 1 as [|x l Hx _ IH]; [reflexivity|].
  cbn. now rewrite (Qle_bool_false _ _ Hx).
Qed.

(** On a chronological deque the eviction loop is a filter. *)
Lemma popleft_older_chronological (cutoff : Q) (l : list Q) :
  SlidingWindowOps.chronological l ->
  SlidingWindow.popleft_older cutoff l = SlidingWindowOps.not_older cutoff l.
Proof.
  induction l as [|t l IH]; [reflexivity|]. intros [Hall Hrest].
  cbn [SlidingWindow.popleft_older]. unfold Qlt_bool.
  destruct (Qle_bool cutoff t) eqn:E; cbn [negb].
  - apply Qle_bool_iff in E. symmetry. apply not_older_all.
    apply Forall_cons. split; [exact E|].
    eapply Forall_impl; [exact Hall|]. cbn. intros x Hx. lra.
  - cbn. rewrite E. now apply IH.
Qed.

(** What the loop removes is a prefix of timestamps older than the cutoff. *)
Lemma popleft_older_drop (cutoff : Q) (l : list Q) :
  exists j : nat,
    (j <= length l)%nat /\
    SlidingWindow.popleft_older cutoff l = drop j l /\
    Forall (fun x => (x < cutoff)%Q) (take j l).
Proof.
  induction l as [|t l (j & Hj & Heq & Hall)].
  - exists 0%nat. repeat split; [cbn; lia | constructor].
  - cbn [SlidingWindow.popleft_older]. unfold Qlt_bool.
    destruct (Qle_bool cutoff t) eqn:E; cbn [negb].
    + exists 0%nat. repeat split; [cbn; lia | constructor].
    + exists (S j). cbn. repeat split; [lia | exact Heq |].
      apply Forall_cons. split; [|exact Hall].
      destruct (Qlt_le_dec t cutoff) as [H|H]; [exact H|].
      apply Qle_bool_iff in H. congruence.
Qed.

Lemma chronological_drop (n : nat) (l : list Q) :
  SlidingWindowOps.chronological l -> SlidingWindowOps.chronological (drop n l).
Proof.
  revert l. induction n as [|n IH]; intros [|a l] H; try exact H.
  cbn. apply IH. exact (proj2 H).
Qed.

Lemma chronological_snoc (l : list Q) (t : Q) :
  SlidingWindowOps.chronological l -> Forall (fun x => (x <= t)%Q) l ->
  SlidingWindowOps.chronological (l ++ [t]).
Proof.
  induction l as [|a l IH]; intros Hc Hle.
  - cbn. split; [constructor | exact I].
  - destruct Hc as [Hall Hrest]. apply Forall_cons in Hle as [Ha Hle].
    cbn. split; [|now apply IH].
    apply Forall_app. split; [exact Hall|].
    apply Forall_cons. split; [exact Ha | constructor].
Qed.

Lemma tracks_later (ws : Z) (t t' : Q) (history deque : list Q) :
  (t <= t')%Q -> SlidingWindowOps.tracks ws t history deque ->
  SlidingWindowOps.tracks ws t' history deque.
Proof.
  intros Ht (Hc & Hle & n & Hn & Hd & Hold).
  split; [exact Hc|]. split.
  - eapply Forall_impl; [exact Hle|]. cbn. intros x Hx. lra.
  - exists n. split; [exact Hn|]. split; [exact Hd|].
    eapply Forall_impl; [exact Hold|]. cbn. intros x Hx. lra.
Qed.

(** One request of the key whose history is tracked. *)
Lemma tracks_request (ws max : Z) (t tc ta : Q) (history deque : list Q) :
  SlidingWindowOps.tracks ws t history deque ->
  (t <= tc)%Q -> (tc <= ta)%Q ->
  let q1 := SlidingWindow.popleft_older (tc - inject_Z ws) deque in
  let a := Z.of_nat (length q1) <? max in
  q1 = SlidingWindowOps.not_older (tc - inject_Z ws) history /\
  SlidingWindowOps.tracks ws ta
    (history ++ (if a then [ta] else []))
    (if a then q1 ++ [ta] else q1).
Proof.
  intros (Hc & Hle & n & Hn & Hd & Hold) Ht Hta q1 a.
  assert (Hold' : Forall (fun x => (x < tc - inject_Z ws)%Q) (take n history))
    by (eapply Forall_impl; [exact Hold|]; cbn; intros x Hx; lra).
  assert (Hq1 : q1 = SlidingWindowOps.not_older (tc - inject_Z ws) history).
  { subst q1. rewrite Hd.
    rewrite popleft_older_chronological by (now apply chronological_drop).
    rewrite <- (take_drop n history) at 2.
    unfold SlidingWindowOps.not_older. rewrite List.filter_app.
    fold (SlidingWindowOps.not_older (tc - inject_Z ws) (take n history)).
    now rewrite (not_older_none _ _ Hold'). }
  split; [exact Hq1|].
  destruct (popleft_older_drop (tc - inject_Z ws) deque)
    as (j & Hj & Hdrop & Hgone).
  fold q1 in Hdrop. rewrite Hd in Hdrop, Hgone, Hj. rewrite drop_drop in Hdrop.
  rewrite length_drop in Hj.
  assert (Htake : Forall (fun x => (x < ta - inject_Z ws)%Q)
                    (take (n + j) history)).
  { rewrite <- (take_drop n history) at 1.
    rewrite take_app_add' by (rewrite length_take; lia).
    apply Forall_app. split.
    - eapply Forall_impl; [exact Hold'|]. cbn. intros x Hx. lra.
    - eapply Forall_impl; [exact Hgone|]. cbn. intros x Hx. lra. }
  assert (Hle' : Forall (fun x => (x <= ta)%Q) history)
    by (eapply Forall_impl; [exact Hle|]; cbn; intros x Hx; lra).
  destruct a.
  - split; [now apply chronological_snoc|]. split.
    + apply Forall_app. split; [exact Hle'|].
      apply Forall_cons. split; [lra | constructor].
    + exists (n + j)%nat. rewrite length_app. cbn [length].
      split; [lia|]. split.
      * rewrite drop_app_le by lia. now rewrite Hdrop.
      * rewrite take_app_le by lia. exact Htake.
  - rewrite app_nil_r. split; [exact Hc|]. split; [exact Hle'|].
    exists (n + j)%nat. split; [lia|]. split; [exact Hdrop | exact Htake].
Qed.

Lemma stored_after_call (key : string) (L : SlidingWindowLimiter)
  (c : SlidingWindowOps.Call) :
  let q1 := SlidingWindow.popleft_older
              (SlidingWindowOps.c_cleanup c - inject_Z (sw_window_seconds L))
              (SlidingWindowOps.stored (SlidingWindowOps.c_key c) L) in
  let a := Z.of_nat (length q1) <? sw_max_requests L in
  let L' := snd (SlidingWindowOps.call L c) in
  fst (SlidingWindowOps.call L c) = a /\
  sw_window_seconds L' = sw_window_seconds L /\
  sw_max_requests L' = sw_max_requests L /\
  SlidingWindowOps.stored key L' =
    if String.eqb (SlidingWindowOps.c_key c) key
    then (if a then q1 ++ [SlidingWindowOps.c_append c] else q1)
    else SlidingWindowOps.stored key L.
Proof.
  intros q1 a L'. subst L'. unfold SlidingWindowOps.call.
  rewrite sliding_allow_request_spec. fold q1. fold a. cbn [fst snd].
  split; [reflexivity|]. split; [reflexivity|]. split; [reflexivity|].
  unfold SlidingWindowOps.stored at 1. cbn [requests SlidingWindow.set_requests].
  destruct (String.eqb_spec (SlidingWindowOps.c_key c) key) as [->|Hne].
  - now rewrite lookup_insert_eq.
  - now rewrite lookup_insert_ne by exact Hne.
Qed.

(** The deque of a key follows the history of its admitted requests through
    any sequence of calls made with a clock that does not go back. *)
Lemma run_tracks (key : string) (calls : list SlidingWindowOps.Call) :
  forall (L : SlidingWindowLimiter) (history : list Q) (t : Q),
    SlidingWindowOps.admissible t calls ->
    SlidingWindowOps.tracks (sw_window_seconds L) t history
      (SlidingWindowOps.stored key L) ->
    let L' := SlidingWindowOps.run calls L in
    sw_window_seconds L' = sw_window_seconds L /\
    sw_max_requests L' = sw_max_requests L /\
    SlidingWindowOps.tracks (sw_window_seconds L)
      (SlidingWindowOps.end_time t calls)
      (history ++ SlidingWindowOps.admitted key calls L)
      (SlidingWindowOps.stored key L').
Proof.
  induction calls as [|c calls IH]; intros L history t Hadm Htr.
  - cbn [SlidingWindowOps.run fold_left SlidingWindowOps.admitted
         SlidingWindowOps.end_time].
    rewrite app_nil_r. split; [reflexivity|]. split; [reflexivity | exact Htr].
  - destruct Hadm as (Htc & Hta & Hadm).
    cbn [SlidingWindowOps.run fold_left SlidingWindowOps.admitted
         SlidingWindowOps.end_time].
    destruct (stored_after_call key L c) as (Ha & Hws & Hmax & Hst).
    destruct (SlidingWindowOps.call L c) as [a L1] eqn:Hcall.
    cbn [fst snd] in Ha, Hws, Hmax, Hst.
    fold (SlidingWindowOps.run calls L1).
    assert (Htr1 : SlidingWindowOps.tracks (sw_window_seconds L1)
                     (SlidingWindowOps.c_append c)
                     (history ++ (if a && String.eqb (SlidingWindowOps.c_key c) key
                                  then [SlidingWindowOps.c_append c] else []))
                     (SlidingWindowOps.stored key L1)).
    { rewrite Hws, Hst.
      destruct (String.eqb_spec (SlidingWindowOps.c_key c) key) as [Hk|Hk].
      - rewrite andb_true_r. rewrite Hk in *.
        destruct (tracks_request (sw_window_seconds L) (sw_max_requests L) t
                    (SlidingWindowOps.c_cleanup c) (SlidingWindowOps.c_append c)
                    history _ Htr Htc Hta) as [_ H].
        cbn zeta in H. rewrite <- Ha in H |- *. exact H.
      - rewrite andb_false_r, app_nil_r.
        apply (tracks_later _ t); [lra | exact Htr]. }
    destruct (IH L1 _ _ Hadm Htr1) as (Hws' & Hmax' & Hfin).
    rewrite Hws in Hws', Hfin. rewrite Hmax in Hmax'.
    split; [exact Hws'|]. split; [exact Hmax'|].
    now rewrite <- app_assoc in Hfin.
Qed.

Lemma admissible_app (t : Q) (l1 l2 : list SlidingWindowOps.Call) :
  SlidingWindowOps.admissible t (l1 ++ l2) ->
  SlidingWindowOps.admissible t l1 /\
  SlidingWindowOps.admissible (SlidingWindowOps.end_time t l1) l2.
Proof.
  revert t. induction l1 as [|c l1 IH]; intros t H.
  - now split.
  - destruct H as (H1 & H2 & H3). destruct (IH _ H3) as [Ha Hb].
    cbn. now repeat split.
Qed.

(** X19. The sliding-window guarantee.  On a new limiter, along any
    sequence of [allow_request] calls, on any keys, made with a clock that
    never goes back: a request is admitted exactly when fewer than
    [max_requests] of the requests of its key admitted so far have a
    timestamp of at least [now - window_seconds], [now] being the clock
    reading of its clean-up.  So no more than [max_requests] admitted
    requests of a key ever fall into one window. *)
Theorem sliding_window_admits_iff_window_not_full
  (max_requests window_seconds : Z) (t0 : Q)
  (calls : list SlidingWindowOps.Call) (c : SlidingWindowOps.Call) :
  SlidingWindowOps.admissible t0 (calls ++ [c]) ->
  let L0 := SlidingWindow.init max_requests window_seconds in
  let earlier := SlidingWindowOps.admitted (SlidingWindowOps.c_key c) calls L0 in
  let in_window :=
    SlidingWindowOps.not_older
      (SlidingWindowOps.c_cleanup c - inject_Z window_seconds) earlier in
  fst (SlidingWindowOps.call (SlidingWindowOps.run calls L0) c) =
  (Z.of_nat (length in_window) <? max_requests).
Proof.
  intros Hadm L0 earlier in_window.
  apply admissible_app in Hadm as [Hcalls (Htc & Hta & _)].
  assert (H0 : SlidingWindowOps.tracks (sw_window_seconds L0) t0 []
                 (SlidingWindowOps.stored (SlidingWindowOps.c_key c) L0)).
  { split; [exact I|]. split; [constructor|].
    exists 0%nat. repeat split; [cbn; lia | constructor]. }
  destruct (run_tracks (SlidingWindowOps.c_key c) calls L0 [] t0 Hcalls H0)
    as (Hws & Hmax & Htr).
  cbn [app] in Htr. fold earlier in Htr.
  destruct (stored_after_call (SlidingWindowOps.c_key c)
              (SlidingWindowOps.run calls L0) c) as (Ha & _).
  rewrite Ha, Hws, Hmax.
  destruct (tracks_request (sw_window_seconds L0) max_requests _
              (SlidingWindowOps.c_cleanup c) (SlidingWindowOps.c_append c)
              earlier _ Htr Htc Hta) as [Hq _].
  cbn zeta in Hq. cbn [sw_window_seconds sw_max_requests L0 SlidingWindow.init] in *.
  now rewrite Hq.
Qed.

Lemma sliding_window_admits_iff_window_not_full_witness :
  let calls := [SlidingWindowOps.mkCall "k" 0 0; SlidingWindowOps.mkCall "k" 10 10;
                SlidingWindowOps.mkCall "j" 20 20] in
  let c := SlidingWindowOps.mkCall "k" 65 65 in
  let L0 := SlidingWindow.init 2 60 in
  SlidingWindowOps.admissible 0 (calls ++ [c]) /\
  SlidingWindowOps.admitted "k" calls L0 = [0%Q; 10%Q] /\
  fst (SlidingWindowOps.call (SlidingWindowOps.run calls L0) c) = true.
Proof.
  intros calls c L0.
  assert (H : SlidingWindowOps.admissible 0 (calls ++ [c])).
  { simpl. unfold Qle. simpl. repeat split; lia. }
  split; [exact H|]. split; [reflexivity|].
  etransitivity;
    [exact (sliding_window_admits_iff_window_not_full 2 60 0 calls c H)|].
  reflexivity.
Defined.

(** ** Fixed window: counts, windows and the boundary *)

Lemma set_windows_same (C : FixedWindowCounter) :
  FixedWindow.set_windows (windows C) C = C.
Proof. now destruct C. Qed.

(** [allow_request] in terms of the count that the test sees. *)
Lemma fixed_allow_request_spec (C : FixedWindowCounter) (now : Q)
  (key : string) (current : Z) :
  FixedWindow.window_start now (fw_window_seconds C) = Ok current ->
  let count := FixedWindow.count_before_test current key C in
  let a := count <? fw_max_requests C in
  FixedWindow.allow_request now key C =
  Ok (a, FixedWindow.set_windows
           (<[key := {| w_start := current;
                        w_count := if a then count + 1 else count |}]>
              (windows C)) C).
Proof.
  intros Hstart count a. subst count a.
  unfold FixedWindow.allow_request, FixedWindow._get_current_window,
    FixedWindow.count_before_test.
  rewrite Hstart.
  destruct (windows C !! key) as [[s c]|] eqn:Hw; cbn [w_start w_count].
  - destruct (Z.eqb_spec s current) as [->|Hne]; cbn [negb].
    + cbn [w_start w_count fw_max_requests].
      destruct (c <? fw_max_requests C); [reflexivity|].
      rewrite insert_id by exact Hw. now rewrite set_windows_same.
    + cbn [w_count fw_max_requests FixedWindow.set_windows w_start windows].
      destruct (0 <? fw_max_requests C); unfold FixedWindow.set_windows; cbn;
        now rewrite ?insert_insert_eq.
  - cbn [w_count fw_max_requests FixedWindow.set_windows w_start windows].
    destruct (0 <? fw_max_requests C); unfold FixedWindow.set_windows; cbn;
      now rewrite ?insert_insert_eq.
Qed.

Lemma fixed_allow_request_raises (C : FixedWindowCounter) (now : Q)
  (key : string) (exn : string) :
  FixedWindow.window_start now (fw_window_seconds C) = Raise exn ->
  FixedWindow.allow_request now key C = Raise exn.
Proof.
  intros H. unfold FixedWindow.allow_request, FixedWindow._get_current_window.
  now rewrite H.
Qed.

(** X20. The counter of a window never passes the limit: after any
    sequence of [allow_request] calls on a new counter, whatever the keys,
    the clock readings and the configuration (a call that raises leaves the
    counter as it was), every stored count lies between zero and
    [max(0, max_requests)]. *)
Theorem fixed_window_count_is_bounded
  (max_requests window_seconds : Z) (calls : list (string * Q))
  (key : string) (w : Window) :
  windows (FixedWindowOps.run calls
             (FixedWindow.init max_requests window_seconds)) !! key = Some w ->
  0 <= w_count w <= Z.max 0 max_requests.
Proof.
  set (bounded := fun C : FixedWindowCounter =>
         fw_max_requests C = max_requests /\
         forall k v, windows C !! k = Some v ->
                     0 <= w_count v <= Z.max 0 max_requests).
  assert (Hstep : forall C c, bounded C -> bounded (FixedWindowOps.step C c)).
  { intros C [k now] [Hmax Hb]. unfold FixedWindowOps.step. cbn [fst snd].
    destruct (FixedWindow.window_start now (fw_window_seconds C))
      as [current|exn] eqn:Hs.
    - rewrite (fixed_allow_request_spec C now k current Hs).
      split; [exact Hmax|]. intros k' v Hv. cbn in Hv.
      apply lookup_insert_Some in Hv as [[_ <-]|[_ Hv]]; [|now apply (Hb k')].
      cbn [w_count].
      assert (Hc : 0 <= FixedWindow.count_before_test current k C
                   <= Z.max 0 max_requests).
      { unfold FixedWindow.count_before_test.
        destruct (windows C !! k) as [v|] eqn:E; [|lia].
        destruct (w_start v =? current); [now apply (Hb k) | lia]. }
      destruct (Z.ltb_spec (FixedWindow.count_before_test current k C)
                  (fw_max_requests C)); lia.
    - rewrite (fixed_allow_request_raises C now k exn Hs). now split. }
  assert (Hrun : forall C, bounded C -> bounded (FixedWindowOps.run calls C)).
  { induction calls as [|c calls IH]; intros C HC; [exact HC|].
    cbn. apply IH. now apply Hstep. }
  intros Hw.
  destruct (Hrun (FixedWindow.init max_requests window_seconds)) as [_ Hb].
  - split; [reflexivity|]. intros k v H. cbn in H. now rewrite lookup_empty in H.
  - now apply (Hb key).
Qed.

Lemma fixed_window_count_is_bounded_witness :
  let calls := [("k"%string, 1%Q); ("k"%string, 2%Q); ("k"%string, 3%Q)] in
  windows (FixedWindowOps.run calls (FixedWindow.init 2 60)) !! "k"
    = Some {| w_start := 0; w_count := 2 |} /\
  0 <= 2 <= Z.max 0 2.
Proof.
  intros calls.
  assert (H : windows (FixedWindowOps.run calls (FixedWindow.init 2 60)) !! "k"
              = Some {| w_start := 0; w_count := 2 |}) by reflexivity.
  split; [exact H|].
  exact (fixed_window_count_is_bounded 2 60 calls "k" _ H).
Defined.

(** The answers of requests of one key that all fall into the window
    [current]. *)
Lemma same_window_answers (key : string) (current : Z) (readings : list Q) :
  forall C : FixedWindowCounter,
    Forall (fun now =>
              FixedWindow.window_start now (fw_window_seconds C) = Ok current)
           readings ->
    FixedWindowOps.answers key readings C =
    map (fun j => Ok (FixedWindow.count_before_test current key C + Z.of_nat j
                      <? fw_max_requests C))
        (seq 0 (length readings)).
Proof.
  induction readings as [|now readings IH]; intros C Hall; [reflexivity|].
  apply Forall_cons in Hall as [Hnow Hall].
  cbn [FixedWindowOps.answers length seq map].
  rewrite (fixed_allow_request_spec C now key current Hnow).
  set (count := FixedWindow.count_before_test current key C).
  set (a := count <? fw_max_requests C).
  set (C1 := FixedWindow.set_windows _ C).
  assert (Hcount1 : FixedWindow.count_before_test current key C1 =
                    if a then count + 1 else count).
  { unfold FixedWindow.count_before_test. subst C1. cbn.
    rewrite lookup_insert_eq. cbn. now rewrite Z.eqb_refl. }
  rewrite (IH C1) by exact Hall. rewrite Hcount1.
  cbn [fw_max_requests FixedWindow.set_windows C1].
  f_equal; [now rewrite Z.add_0_r|].
  rewrite <- seq_shift, map_map. apply map_ext. intros j. f_equal.
  subst a. destruct (Z.ltb_spec count (fw_max_requests C)) as [H|H].
  - f_equal. lia.
  - destruct (Z.ltb_spec (count + Z.of_nat j) (fw_max_requests C)),
             (Z.ltb_spec (count + Z.of_nat (S j)) (fw_max_requests C));
      try reflexivity; lia.
Qed.

(** Of [n] answers that admit while [count + j < limit], the admissions are
    the first [min(n, max(0, limit - count))]. *)
Lemma admissions_up_to_limit (count limit : Z) (n : nat) :
  FixedWindowOps.admissions
    (map (fun j => Ok (count + Z.of_nat j <? limit)) (seq 0 n)) =
  Z.to_nat (Z.min (Z.of_nat n) (Z.max 0 (limit - count))).
Proof.
  unfold FixedWindowOps.admissions. induction n as [|n IH]; [cbn; lia|].
  rewrite seq_S, map_app, List.filter_app, length_app, IH. cbn [map List.filter].
  destruct (Z.ltb_spec (count + Z.of_nat (0 + n)) limit); cbn [length]; lia.
Qed.

(** X21. Within one window the counter admits up to the limit.  When the
    clock readings of [n] successive requests of a key all fall into the
    same window, and [count] is what the counter holds for that window at
    the start (zero when the key is new or its stored window is another
    one), the [j]-th request (counting from zero) is admitted exactly when
    [count + j < max_requests]; so exactly
    [min(n, max(0, max_requests - count))] of them are admitted, and none
    raises. *)
Theorem fixed_window_admits_up_to_limit
  (C : FixedWindowCounter) (key : string) (current : Z) (readings : list Q) :
  Forall (fun now =>
            FixedWindow.window_start now (fw_window_seconds C) = Ok current)
         readings ->
  let count := FixedWindow.count_before_test current key C in
  FixedWindowOps.answers key readings C =
    map (fun j => Ok (count + Z.of_nat j <? fw_max_requests C))
        (seq 0 (length readings)) /\
  FixedWindowOps.admissions (FixedWindowOps.answers key readings C) =
    Z.to_nat (Z.min (Z.of_nat (length readings))
                    (Z.max 0 (fw_max_requests C - count))).
Proof.
  intros Hall count.
  pose proof (same_window_answers key current readings C Hall) as Hanswers.
  fold count in Hanswers. split; [exact Hanswers|].
  rewrite Hanswers. apply admissions_up_to_limit.
Qed.

Lemma fixed_window_admits_up_to_limit_witness :
  let C := FixedWindow.init 2 60 in
  let readings := [61%Q; 75%Q; 119%Q] in
  Forall (fun now =>
            FixedWindow.window_start now (fw_window_seconds C) = Ok 60)
         readings /\
  FixedWindowOps.answers "k" readings C = [Ok true; Ok true; Ok false].
Proof.
  intros C readings.
  assert (H : Forall (fun now =>
                FixedWindow.window_start now (fw_window_seconds C) = Ok 60)
              readings).
  { repeat (apply Forall_cons; split; [reflexivity|]). apply Forall_nil_2. }
  split; [exact H|].
  etransitivity;
    [exact (proj1 (fixed_window_admits_up_to_limit C "k" 60 readings H))|].
  reflexivity.
Defined.

Lemma fixed_answers_app (key : string) (l1 l2 : list Q) :
  forall C : FixedWindowCounter,
    FixedWindowOps.answers key (l1 ++ l2) C =
    FixedWindowOps.answers key l1 C ++
    FixedWindowOps.answers key l2
      (FixedWindowOps.run (map (fun now => (key, now)) l1) C).
Proof.
  induction l1 as [|now l1 IH]; intros C; [reflexivity|].
  cbn [app FixedWindowOps.answers map FixedWindowOps.run fold_left].
  unfold FixedWindowOps.step at 2. cbn [fst snd].
  destruct (FixedWindow.allow_request now key C) as [[a C1]|exn];
    cbn [app]; f_equal; apply IH.
Qed.

Lemma step_in_window (C : FixedWindowCounter) (key : string) (now : Q)
  (current : Z) :
  FixedWindow.window_start now (fw_window_seconds C) = Ok current ->
  let count := FixedWindow.count_before_test current key C in
  FixedWindowOps.step C (key, now) =
  FixedWindow.set_windows
    (<[key := {| w_start := current;
                 w_count := if count <? fw_max_requests C
                            then count + 1 else count |}]> (windows C)) C.
Proof.
  intros H count. unfold FixedWindowOps.step. cbn [fst snd].
  now rewrite (fixed_allow_request_spec C now key current H).
Qed.

(** Requests of one key within one window leave the configuration alone and
    the window of that start stored. *)
Lemma run_same_window (key : string) (current : Z) (readings : list Q) :
  forall C : FixedWindowCounter,
    Forall (fun now =>
              FixedWindow.window_start now (fw_window_seconds C) = Ok current)
           readings ->
    let C' := FixedWindowOps.run (map (fun now => (key, now)) readings) C in
    fw_window_seconds C' = fw_window_seconds C /\
    fw_max_requests C' = fw_max_requests C /\
    (readings <> [] ->
     exists w, windows C' !! key = Some w /\ w_start w = current) /\
    (readings = [] -> C' = C).
Proof.
  induction readings as [|now readings IH]; intros C Hall.
  - cbn. repeat split; congruence.
  - apply Forall_cons in Hall as [Hnow Hall].
    cbn [map FixedWindowOps.run fold_left].
    rewrite (step_in_window C key now current Hnow).
    set (C1 := FixedWindow.set_windows _ C).
    fold (FixedWindowOps.run (map (fun now => (key, now)) readings) C1).
    destruct (IH C1 Hall) as (Hws & Hmax & Hsome & Hnil). cbn zeta.
    split; [exact Hws|]. split; [exact Hmax|]. split; [|congruence].
    intros _. destruct readings as [|r rs].
    + rewrite (Hnil eq_refl). subst C1. cbn. rewrite lookup_insert_eq.
      eexists. split; reflexivity.
    + apply Hsome. discriminate.
Qed.

(** X22. The burst at a window boundary.  For a key with no stored window,
    when the clock readings of a first run of requests all fall into one
    window and those of a second run into another, the count starts again at
    the boundary: in each run the [j]-th request is admitted exactly when
    [j < max_requests].  So [2 * max_requests] requests are admitted when
    [max_requests] of them come just before a boundary and [max_requests]
    just after it, however close in time the two runs are. *)
Theorem fixed_window_restarts_at_boundary
  (C : FixedWindowCounter) (key : string) (first second : Z)
  (before after : list Q) :
  windows C !! key = None ->
  first <> second ->
  Forall (fun now =>
            FixedWindow.window_start now (fw_window_seconds C) = Ok first)
         before ->
  Forall (fun now =>
            FixedWindow.window_start now (fw_window_seconds C) = Ok second)
         after ->
  FixedWindowOps.answers key (before ++ after) C =
  map (fun j => Ok (Z.of_nat j <? fw_max_requests C)) (seq 0 (length before)) ++
  map (fun j => Ok (Z.of_nat j <? fw_max_requests C)) (seq 0 (length after)).
Proof.
  intros Hfresh Hne Hbefore Hafter.
  rewrite fixed_answers_app.
  destruct (run_same_window key first before C Hbefore)
    as (Hws & Hmax & Hsome & Hnil).
  set (C1 := FixedWindowOps.run _ C) in *.
  rewrite (same_window_answers key first before C Hbefore).
  rewrite (same_window_answers key second after C1)
    by (now rewrite Hws).
  assert (H0 : FixedWindow.count_before_test first key C = 0)
    by (unfold FixedWindow.count_before_test; now rewrite Hfresh).
  assert (H1 : FixedWindow.count_before_test second key C1 = 0).
  { unfold FixedWindow.count_before_test.
    destruct before as [|b bs].
    - rewrite (Hnil eq_refl). now rewrite Hfresh.
    - destruct Hsome as (w & -> & Hw); [discriminate|].
      rewrite Hw. now rewrite (proj2 (Z.eqb_neq _ _) Hne). }
  rewrite H0, H1, Hmax. reflexivity.
Qed.

Lemma fixed_window_restarts_at_boundary_witness :
  let C := FixedWindow.init 2 60 in
  let before := [(599 # 10)%Q; (599 # 10)%Q] in
  let after := [60%Q; 60%Q; (601 # 10)%Q] in
  windows C !! "k" = None /\ 0 <> 60 /\
  FixedWindowOps.answers "k" (before ++ after) C =
  [Ok true; Ok true; Ok true; Ok true; Ok false].
Proof.
  intros C before after.
  assert (H0 : windows C !! "k" = None) by reflexivity.
  assert (H1 : 0 <> 60) by lia.
  assert (H2 : Forall (fun now =>
                 FixedWindow.window_start now (fw_window_seconds C) = Ok 0)
               before).
  { repeat (apply Forall_cons; split; [reflexivity|]). apply Forall_nil_2. }
  assert (H3 : Forall (fun now =>
                 FixedWindow.window_start now (fw_window_seconds C) = Ok 60)
               after).
  { repeat (apply Forall_cons; split; [reflexivity|]). apply Forall_nil_2. }
  split; [exact H0|]. split; [exact H1|].
  etransitivity;
    [exact (fixed_window_restarts_at_boundary C "k" 0 60 before after
              H0 H1 H2 H3)|].
  reflexivity.
Defined.

(** X23. The remaining quota of the fixed window.  When the window start
    can be computed (the window length is not zero),
    [get_remaining_requests] returns [max(0, max_requests - count)] for the
    count of the current window; it is positive exactly when [allow_request]
    at the same clock reading admits; and although it stores the current
    window (resetting a stale one), the request that follows gets the same
    answer and leaves the same counter as without it. *)
Theorem fixed_remaining_agrees_with_admission
  (C : FixedWindowCounter) (key : string) (now : Q) (current : Z) :
  FixedWindow.window_start now (fw_window_seconds C) = Ok current ->
  let count := FixedWindow.count_before_test current key C in
  exists C1 : FixedWindowCounter,
    FixedWindow.get_remaining_requests now key C =
      Ok (Z.max 0 (fw_max_requests C - count), C1) /\
    (0 < Z.max 0 (fw_max_requests C - count) <->
     exists C2, FixedWindow.allow_request now key C = Ok (true, C2)) /\
    FixedWindow.allow_request now key C1 = FixedWindow.allow_request now key C.
Proof.
  intros Hstart count.
  destruct (get_current_window_spec C now key current Hstart)
    as (bs & Hget & Hbs & Hother).
  fold count in Hget, Hbs.
  exists (FixedWindow.set_windows bs C). split; [|split].
  - unfold FixedWindow.get_remaining_requests. now rewrite Hget.
  - rewrite (fixed_allow_request_spec C now key current Hstart). fold count.
    destruct (Z.ltb_spec count (fw_max_requests C)) as [H|H]; split.
    + intros _. eexists. reflexivity.
    + intros _. lia.
    + intros H'. lia.
    + intros [C2 H']. discriminate H'.
  - rewrite (fixed_allow_request_spec C now key current Hstart).
    rewrite (fixed_allow_request_spec (FixedWindow.set_windows bs C) now key
               current Hstart).
    assert (Hcount : FixedWindow.count_before_test current key
                       (FixedWindow.set_windows bs C) = count).
    { unfold FixedWindow.count_before_test at 1. cbn. rewrite Hbs. cbn.
      now rewrite Z.eqb_refl. }
    rewrite Hcount. fold count. cbn [fw_max_requests FixedWindow.set_windows].
    do 2 f_equal. unfold FixedWindow.set_windows. cbn. f_equal.
    apply map_eq. intros k. destruct (decide (key = k)) as [<-|Hk].
    + now rewrite !lookup_insert_eq.
    + rewrite !lookup_insert_ne by exact Hk. apply Hother. congruence.
Qed.

Lemma fixed_remaining_agrees_with_admission_witness :
  let C := FixedWindow.init 2 60 in
  FixedWindow.window_start 61 (fw_window_seconds C) = Ok 60 /\
  exists C1, FixedWindow.get_remaining_requests 61 "k" C = Ok (2, C1) /\
             FixedWindow.allow_request 61 "k" C1 =
             FixedWindow.allow_request 61 "k" C.
Proof.
  intros C.
  assert (H : FixedWindow.window_start 61 (fw_window_seconds C) = Ok 60)
    by reflexivity.
  split; [exact H|].
  destruct (fixed_remaining_agrees_with_admission C "k" 61 60 H)
    as (C1 & Hget & _ & Hsame).
  exists C1. split; [exact Hget | exact Hsame].
Defined.

(** ** Clients and keys *)

(** X24. The limiters keep clients apart: a call made for one key, of
    [allow_request] on any of the three limiters, of [get_wait_time] on the
    token bucket or of [get_remaining_requests] on the sliding window, never
    changes what is stored for another key. *)
Theorem limiters_keep_other_keys (key other : string) :
  other <> key ->
  (forall tc tr n L,
     buckets (snd (TokenBucket.allow_request tc tr key n L)) !! other =
     buckets L !! other) /\
  (forall tc tr L,
     buckets (snd (TokenBucketOps.get_wait_time tc tr key L)) !! other =
     buckets L !! other) /\
  (forall tc ta L,
     requests (snd (SlidingWindow.allow_request tc ta key L)) !! other =
     requests L !! other) /\
  (forall now L,
     requests (snd (SlidingWindow.get_remaining_requests now key L)) !! other =
     requests L !! other) /\
  (forall now C a C',
     FixedWindow.allow_request now key C = Ok (a, C') ->
     windows C' !! other = windows C !! other).
Proof.
  intros Hne.
  assert (Hget : forall tc L,
            buckets (snd (TokenBucket._get_bucket tc key L)) !! other =
            buckets L !! other).
  { intros tc L. unfold TokenBucket._get_bucket.
    destruct (buckets L !! key); [reflexivity|].
    cbn. now rewrite lookup_insert_ne by congruence. }
  split; [|split; [|split; [|split]]].
  - intros tc tr n L. unfold TokenBucket.allow_request.
    specialize (Hget tc L).
    destruct (TokenBucket._get_bucket tc key L) as [b L1]. cbn [snd] in Hget.
    destruct (Qle_bool _ _); cbn;
      now rewrite lookup_insert_ne by congruence.
  - intros tc tr L. unfold TokenBucketOps.get_wait_time.
    specialize (Hget tc L).
    destruct (TokenBucket._get_bucket tc key L) as [b L1]. cbn [snd] in Hget.
    destruct (Qle_bool _ _); [|destruct (Qeq_bool _ _)]; cbn;
      now rewrite lookup_insert_ne by congruence.
  - intros tc ta L. rewrite sliding_allow_request_spec. cbn.
    now rewrite lookup_insert_ne by congruence.
  - intros now L. rewrite sliding_remaining_spec. cbn.
    now rewrite lookup_insert_ne by congruence.
  - intros now C a C' H.
    destruct (FixedWindow.window_start now (fw_window_seconds C))
      as [current|exn] eqn:Hs.
    + rewrite (fixed_allow_request_spec C now key current Hs) in H.
      injection H as _ <-. cbn. now rewrite lookup_insert_ne by congruence.
    + rewrite (fixed_allow_request_raises C now key exn Hs) in H. discriminate.
Qed.

Lemma limiters_keep_other_keys_witness :
  let L := snd (TokenBucket.allow_request 0 0 "alice" 1 (TokenBucket.init 5 10)) in
  "alice"%string <> "bob"%string /\
  buckets (snd (TokenBucket.allow_request 1 1 "bob" 5 L)) !! "alice" =
  buckets L !! "alice".
Proof.
  intros L.
  assert (H : "alice"%string <> "bob"%string) by discriminate.
  split; [exact H|].
  exact (proj1 (limiters_keep_other_keys "bob" "alice" H) 1%Q 1%Q 5 L).
Defined.



(** ** The per-user endpoint: tiers *)

Lemma get_reset_time_keeps (now : Q) (key : string) (L : SlidingWindowLimiter)
  (q : list Q) :
  requests L !! key = Some q ->
  snd (SlidingWindow.get_reset_time now key L) = L.
Proof.
  intros H. unfold SlidingWindow.get_reset_time, SlidingWindow.getitem.
  rewrite H. now destruct q.
Qed.

(** [GET /user/data] with a key, in terms of the deque of its limiter. *)
Lemma user_request_spec (clk : UserClock) (c0 : Ascii.ascii) (k0 : string)
  (table : gmap string SlidingWindowLimiter) :
  let key := String c0 k0 in
  let L := fst (RateLimitApp.get_user_limiter key table) in
  let q1 := SlidingWindow.popleft_older
              (u_cleanup clk - inject_Z (sw_window_seconds L))
              (SlidingWindowOps.stored key L) in
  let a := Z.of_nat (length q1) <? sw_max_requests L in
  let d1 := if a then q1 ++ [u_append clk] else q1 in
  let q2 := SlidingWindow.popleft_older
              (u_remaining clk - inject_Z (sw_window_seconds L)) d1 in
  let res := RateLimitApp.user_specific_rate_limit clk (Some key) table in
  RateLimitApp.served (fst res) = a /\
  (forall tier limit remaining,
     fst res = UserServed tier limit remaining ->
     limit = RateLimitApp.limit_of key /\
     tier = if RateLimitApp.is_premium key then "premium"%string
            else "free"%string) /\
  exists L',
    snd res = <[key := L']> table /\
    sw_max_requests L' = sw_max_requests L /\
    sw_window_seconds L' = sw_window_seconds L /\
    SlidingWindowOps.stored key L' = q2.
Proof.
  intros key L q1 a d1 q2 res. subst res q2 d1 a q1 L.
  unfold RateLimitApp.user_specific_rate_limit. fold key.
  assert (Htable : snd (RateLimitApp.get_user_limiter key table) = table \/
                   snd (RateLimitApp.get_user_limiter key table) =
                     <[key := fst (RateLimitApp.get_user_limiter key table)]>
                       table).
  { unfold RateLimitApp.get_user_limiter.
    destruct (table !! key); [now left | now right]. }
  destruct (RateLimitApp.get_user_limiter key table) as [L table1].
  cbn [fst snd] in *.
  rewrite sliding_allow_request_spec.
  set (q1 := SlidingWindow.popleft_older
               (u_cleanup clk - inject_Z (sw_window_seconds L))
               (SlidingWindowOps.stored key L)).
  set (a := Z.of_nat (length q1) <? sw_max_requests L).
  set (d1 := if a then q1 ++ [u_append clk] else q1).
  set (L1 := SlidingWindow.set_requests (<[key := d1]> (requests L)) L).
  rewrite sliding_remaining_spec.
  assert (Hst1 : SlidingWindowOps.stored key L1 = d1)
    by (unfold SlidingWindowOps.stored; subst L1; cbn;
        now rewrite lookup_insert_eq).
  rewrite Hst1. cbn [sw_window_seconds sw_max_requests L1
                     SlidingWindow.set_requests].
  set (q2 := SlidingWindow.popleft_older
               (u_remaining clk - inject_Z (sw_window_seconds L)) d1).
  set (L2 := SlidingWindow.set_requests (<[key := q2]> (requests L1)) L1).
  assert (Hst2 : SlidingWindowOps.stored key L2 = q2)
    by (unfold SlidingWindowOps.stored; subst L2; cbn;
        now rewrite lookup_insert_eq).
  assert (Hins : <[key := L2]> table1 = <[key := L2]> table)
    by (destruct Htable as [-> | ->]; [reflexivity | apply insert_insert_eq]).
  destruct a; cbn [negb].
  - cbn [fst snd RateLimitApp.served]. split; [reflexivity|]. split.
    + intros tier limit remaining H. injection H as <- <- _.
      unfold RateLimitApp.limit_of.
      now destruct (RateLimitApp.is_premium key).
    + exists L2. split; [exact Hins|]. now repeat split.
  - pose proof (get_reset_time_keeps (u_reset clk) key L2 q2) as Hkeep.
    destruct (SlidingWindow.get_reset_time (u_reset clk) key L2)
      as [reset_time L3].
    cbn [fst snd RateLimitApp.served] in *.
    rewrite Hkeep by (subst L2; cbn; apply lookup_insert_eq).
    split; [reflexivity|]. split; [intros ? ? ? H; discriminate H|].
    exists L2. split; [exact Hins|]. now repeat split.
Qed.

Lemma follows_later (key : string) (t t' : Q) (history : list Q)
  (table : gmap string SlidingWindowLimiter) :
  (t <= t')%Q -> RateLimitApp.follows key t history table ->
  RateLimitApp.follows key t' history table.
Proof.
  unfold RateLimitApp.follows. intros Ht H.
  destruct (table !! key); [|exact H].
  destruct H as (H1 & H2 & H3). split; [exact H1|]. split; [exact H2|].
  now apply (tracks_later _ t).
Qed.

(** The limiter that [get_user_limiter] hands out has the limit of the tier
    and follows the history. *)
Lemma get_user_limiter_follows (key : string) (t : Q) (history : list Q)
  (table : gmap string SlidingWindowLimiter) :
  RateLimitApp.follows key t history table ->
  let L := fst (RateLimitApp.get_user_limiter key table) in
  sw_max_requests L = RateLimitApp.limit_of key /\
  sw_window_seconds L = 60 /\
  SlidingWindowOps.tracks 60 t history (SlidingWindowOps.stored key L).
Proof.
  unfold RateLimitApp.follows, RateLimitApp.get_user_limiter.
  destruct (table !! key) as [L0|]; cbn [fst]; [tauto|].
  intros ->. unfold RateLimitApp.limit_of.
  split; [now destruct (RateLimitApp.is_premium key)|].
  split; [now destruct (RateLimitApp.is_premium key)|].
  assert (Hst : SlidingWindowOps.stored key
                  (if RateLimitApp.is_premium key
                   then SlidingWindow.init 100 60
                   else SlidingWindow.init 10 60) = [])
    by (now destruct (RateLimitApp.is_premium key)).
  rewrite Hst. split; [exact I|]. split; [constructor|].
  exists 0%nat. repeat split; [cbn; lia | constructor].
Qed.

(** One request, seen from the key whose history is followed. *)
Lemma follows_step (key : string) (t : Q) (history : list Q)
  (table : gmap string SlidingWindowLimiter) (c : UserCall) :
  RateLimitApp.follows key t history table ->
  (t <= u_cleanup (uc_clock c))%Q ->
  (u_cleanup (uc_clock c) <= u_append (uc_clock c))%Q ->
  (u_append (uc_clock c) <= u_remaining (uc_clock c))%Q ->
  (u_remaining (uc_clock c) <= u_reset (uc_clock c))%Q ->
  let res := RateLimitApp.serve table c in
  RateLimitApp.follows key (u_reset (uc_clock c))
    (history ++
       (if RateLimitApp.served (fst res) &&
           match uc_api_key c with
           | Some k => String.eqb k key
           | None => false
           end
        then [u_append (uc_clock c)] else []))
    (snd res) /\
  (uc_api_key c = Some key -> key <> ""%string ->
   RateLimitApp.served (fst res) =
   (Z.of_nat (length (SlidingWindowOps.not_older
                        (u_cleanup (uc_clock c) - 60) history))
    <? RateLimitApp.limit_of key)).
Proof.
  intros Hf H1 H2 H3 H4 res. subst res. unfold RateLimitApp.serve.
  destruct c as [api_key clk]. cbn [uc_api_key uc_clock] in *.
  assert (Hidle : forall out,
            RateLimitApp.follows key (u_reset clk)
              (history ++ (if RateLimitApp.served out && false
                           then [u_append clk] else [])) table).
  { intros out. rewrite andb_false_r, app_nil_r.
    apply (follows_later key t); [lra | exact Hf]. }
  destruct api_key as [[|c0 k0]|].
  - cbn [RateLimitApp.user_specific_rate_limit fst snd RateLimitApp.served].
    split; [|intros H; injection H as <-; congruence].
    cbn [andb]. rewrite app_nil_r. apply (follows_later key t); [lra | exact Hf].
  - destruct (user_request_spec clk c0 k0 table)
      as (Hserved & _ & L' & Htab & Hmax & Hws & Hst).
    set (res := RateLimitApp.user_specific_rate_limit clk (Some (String c0 k0))
                  table) in *.
    destruct (String.eqb_spec (String c0 k0) key) as [Hk|Hk].
    + rewrite andb_true_r.
      pose proof (get_user_limiter_follows key t history table Hf)
        as (HLmax & HLws & HLtr).
      rewrite Hk in *. cbn zeta in *.
      set (L := fst (RateLimitApp.get_user_limiter key table)) in *.
      rewrite HLws, HLmax in *.
      destruct (tracks_request 60 (RateLimitApp.limit_of key) t
                  (u_cleanup clk) (u_append clk) history _ HLtr H1 H2)
        as [Hq1 Htr1].
      cbn zeta in Hq1, Htr1. change (inject_Z 60) with 60%Q in *.
      rewrite <- Hserved in Htr1.
      destruct (tracks_request 60 0 (u_append clk) (u_remaining clk)
                  (u_remaining clk) _ _ Htr1 H3 (Qle_refl _)) as [_ Htr2].
      cbn zeta in Htr2. change (inject_Z 60) with 60%Q in *.
      replace (Z.of_nat (length _) <? 0) with false in Htr2
        by (symmetry; apply Z.ltb_ge; lia).
      rewrite app_nil_r in Htr2. split.
      * unfold RateLimitApp.follows. rewrite Htab, lookup_insert_eq.
        split; [exact Hmax|]. split; [exact Hws|].
        rewrite Hst. rewrite <- Hserved.
        apply (tracks_later _ (u_remaining clk)); [exact H4 | exact Htr2].
      * intros _ _. rewrite Hserved. now rewrite Hq1.
    + rewrite andb_false_r, app_nil_r. split.
      * unfold RateLimitApp.follows. rewrite Htab.
        rewrite lookup_insert_ne by exact Hk.
        apply (follows_later key t); [lra | exact Hf].
      * intros H. congruence.
  - cbn [RateLimitApp.user_specific_rate_limit fst snd RateLimitApp.served].
    split; [|discriminate]. cbn [andb]. rewrite app_nil_r.
    apply (follows_later key t); [lra | exact Hf].
Qed.

Lemma user_run_follows (key : string) (calls : list UserCall) :
  forall (table : gmap string SlidingWindowLimiter) (history : list Q) (t : Q),
    RateLimitApp.admissible t calls ->
    RateLimitApp.follows key t history table ->
    RateLimitApp.follows key (RateLimitApp.end_time t calls)
      (history ++ RateLimitApp.served_stamps key calls table)
      (RateLimitApp.run calls table).
Proof.
  induction calls as [|c calls IH]; intros table history t Hadm Hf.
  - cbn [RateLimitApp.end_time RateLimitApp.served_stamps RateLimitApp.run
         fold_left]. now rewrite app_nil_r.
  - destruct Hadm as (H1 & H2 & H3 & H4 & Hadm).
    destruct (follows_step key t history table c Hf H1 H2 H3 H4) as [Hstep _].
    cbn [RateLimitApp.end_time RateLimitApp.served_stamps RateLimitApp.run
         fold_left].
    destruct (RateLimitApp.serve table c) as [out table1].
    cbn [fst snd] in Hstep.
    fold (RateLimitApp.run calls table1).
    rewrite app_assoc. now apply IH.
Qed.

Lemma user_admissible_app (t : Q) (l1 l2 : list UserCall) :
  RateLimitApp.admissible t (l1 ++ l2) ->
  RateLimitApp.admissible t l1 /\
  RateLimitApp.admissible (RateLimitApp.end_time t l1) l2.
Proof.
  revert t. induction l1 as [|c l1 IH]; intros t H.
  - now split.
  - destruct H as (H1 & H2 & H3 & H4 & H5). destruct (IH _ H5) as [Ha Hb].
    cbn. now repeat split.
Qed.

(** X26. The tier limit is what is enforced.  Along any sequence of
    [GET /user/data] requests, with any keys, on an empty table of limiters
    and with a clock that never goes back: a request with a non-empty API
    key is served exactly when fewer than the limit of its tier (100 for a
    key that starts with "premium_", 10 otherwise) of the requests served
    so far for that key have a timestamp within the last 60 seconds; and
    the tier and the limit that a served response shows are those of the
    key. *)
Theorem user_tier_limit_is_enforced
  (t0 : Q) (calls : list UserCall) (c : UserCall) (key : string) :
  RateLimitApp.admissible t0 (calls ++ [c]) ->
  uc_api_key c = Some key -> key <> ""%string ->
  let res := RateLimitApp.serve (RateLimitApp.run calls ∅) c in
  let recent :=
    SlidingWindowOps.not_older (u_cleanup (uc_clock c) - 60)
      (RateLimitApp.served_stamps key calls ∅) in
  RateLimitApp.served (fst res) =
    (Z.of_nat (length recent) <? RateLimitApp.limit_of key) /\
  (forall tier limit remaining,
     fst res = UserServed tier limit remaining ->
     limit = RateLimitApp.limit_of key /\
     tier = if RateLimitApp.is_premium key then "premium"%string
            else "free"%string).
Proof.
  intros Hadm Hkey Hne res recent.
  apply user_admissible_app in Hadm as [Hcalls (H1 & H2 & H3 & H4 & _)].
  assert (H0 : RateLimitApp.follows key t0 [] ∅)
    by (unfold RateLimitApp.follows; now rewrite lookup_empty).
  pose proof (user_run_follows key calls ∅ [] t0 Hcalls H0) as Hf.
  cbn [app] in Hf.
  destruct (follows_step key _ _ _ c Hf H1 H2 H3 H4) as [_ Hserved].
  split; [now apply Hserved|].
  subst res. unfold RateLimitApp.serve. rewrite Hkey.
  destruct key as [|c0 k0]; [congruence|].
  exact (proj1 (proj2 (user_request_spec (uc_clock c) c0 k0 _))).
Qed.

Lemma user_tier_limit_is_enforced_witness :
  let clk (t : Q) := mkUserClock t t t t in
  let calls := [mkUserCall (Some "premium_ann"%string) (clk 0%Q);
                mkUserCall None (clk 1%Q);
                mkUserCall (Some "bob"%string) (clk 2%Q)] in
  let c := mkUserCall (Some "bob"%string) (clk 3%Q) in
  RateLimitApp.admissible 0 (calls ++ [c]) /\
  "bob"%string <> ""%string /\
  RateLimitApp.served_stamps "bob" calls ∅ = [2%Q] /\
  fst (RateLimitApp.serve (RateLimitApp.run calls ∅) c) = UserServed "free" 10 8.
Proof.
  intros clk calls c.
  assert (H : RateLimitApp.admissible 0 (calls ++ [c])).
  { simpl. unfold Qle. simpl. repeat split; lia. }
  assert (Hne : "bob"%string <> ""%string) by discriminate.
  split; [exact H|]. split; [exact Hne|]. split; [reflexivity|].
  destruct (user_tier_limit_is_enforced 0 calls c "bob" H eq_refl Hne)
    as [Hserved _].
  destruct (fst (RateLimitApp.serve (RateLimitApp.run calls ∅) c)) eqn:E;
    try discriminate Hserved.
  vm_compute in E. injection E as <- <- <-. reflexivity.
Defined.
